(** * privconvert: ownership and ACL remapping of container trees

    A shallow embedding of [src/privconvert.c].  The C globals, the inode
    hash table and the part of the file system the program touches are
    threaded through the functions as one explicit [state]; the answers of
    the operating system that the program cannot control (allocation
    failures, failing system calls, the directory walk of [nftw], the
    operator's answer) are read from an [env] record. *)

From Stdlib Require Import ZArith Lia Bool Ascii.
From stdpp Require Import base gmap strings list pretty.

Local Open Scope string_scope.
Local Open Scope Z_scope.

(** ** Constants ([#define]s of the source) *)

Definition MAX_PATHS : Z := 64.
Definition MAX_LINE : Z := 4096.
Definition MAX_PATH_LEN : Z := 2048.
Definition UID_GID_OFFSET : Z := 100000.
Definition MAX_UID_GID : Z := 200000.
Definition INODE_HASH_SIZE : Z := 65536.

(** ** Machine integers

    [uid_t] and [gid_t] are unsigned 32-bit, [dev_t], [ino_t] and
    [uint64_t] unsigned 64-bit, [int] signed 32-bit.  Values are kept in
    [Z]; every C operation that can wrap is followed by its cast. *)

Definition to_uid (z : Z) : Z := z mod 2 ^ 32.
Definition to_u64 (z : Z) : Z := z mod 2 ^ 64.
Definition to_int (z : Z) : Z := (z + 2 ^ 31) mod 2 ^ 32 - 2 ^ 31.

(** ** The identity transform

    The arithmetic of lines 196-214 ([process_file], applied to the uid and
    to the gid) and of lines 130-146 ([shift_acl], applied to a qualifier):
    [None] is the bounds error of the branch taken. *)

Definition shift_id (offset old : Z) : option Z :=
  if offset <? 0 then
    if old <? to_uid (- offset) then None
    else Some (to_uid (old - to_uid (- offset)))
  else
    let new_id := to_uid (old + to_uid offset) in
    if MAX_UID_GID <? new_id then None else Some new_id.

(** ** The inode hash table (lines 38-92)

    [inode_table] is an array of [INODE_HASH_SIZE] chains; a bucket that was
    never written is the empty chain.  New entries are linked at the head. *)

Abbreviation key := (Z * Z)%type.

Definition inode_hash (dev ino : Z) : Z :=
  to_uid (Z.lxor dev ino mod INODE_HASH_SIZE).

Definition bucket (tbl : gmap Z (list key)) (h : Z) : list key :=
  default [] (tbl !! h).

Fixpoint chain_has (dev ino : Z) (chain : list key) : bool :=
  match chain with
  | [] => false
  | (d, i) :: next => if (d =? dev) && (i =? ino) then true else chain_has dev ino next
  end.

(** ** Access control lists (the part of libacl the program uses) *)

Inductive acl_tag :=
  ACL_USER_OBJ | ACL_USER | ACL_GROUP_OBJ | ACL_GROUP | ACL_MASK | ACL_OTHER.

Inductive acl_type := ACL_TYPE_ACCESS | ACL_TYPE_DEFAULT.

Record acl_entry := AclEntry {
  e_tag : acl_tag;
  e_id : Z;        (* the qualifier; meaningful for ACL_USER and ACL_GROUP *)
  e_perm : Z
}.

Inductive errno := ENOTSUP | ENOSYS | EOTHER.

(** What an in-memory libacl call on one entry can answer besides the
    ordinary result. *)
Inductive acl_fault :=
  | TagFails          (* acl_get_tag_type returns -1 *)
  | QualifierNull     (* acl_get_qualifier returns NULL *)
  | SetQualifierFails (* acl_set_qualifier returns -1 *).

Definition is_user_or_group (t : acl_tag) : bool :=
  match t with ACL_USER | ACL_GROUP => true | _ => false end.

(** ** File system objects *)

Record inode := Inode {
  i_mode : Z;
  i_uid : Z;
  i_gid : Z;
  i_acl_access : list acl_entry;
  i_acl_default : list acl_entry;
  i_target : string   (* where a symbolic link points *)
}.

Record stat_t := Stat {
  st_dev : Z; st_ino : Z; st_mode : Z; st_uid : Z; st_gid : Z
}.

Definition S_IFMT : Z := 0xF000.    (* 0170000 *)
Definition S_IFLNK : Z := 0xA000.   (* 0120000 *)
Definition S_IFDIR : Z := 0x4000.   (* 0040000 *)
Definition S_IFREG : Z := 0x8000.   (* 0100000 *)
Definition S_ISUID : Z := 0x800.    (* 04000 *)
Definition S_ISGID : Z := 0x400.    (* 02000 *)
Definition S_IXGRP : Z := 0x8.      (* 010 *)
Definition MODE_BITS : Z := 0xFFF.  (* 07777, the bits chmod can set *)

Definition S_ISLNK (m : Z) : bool := Z.land m S_IFMT =? S_IFLNK.
Definition S_ISDIR (m : Z) : bool := Z.land m S_IFMT =? S_IFDIR.

(** ** What the program does to the outside, newest first *)

Inductive event :=
  | EvLchown (path : string) (uid gid : Z)
  | EvChmod (path : string) (mode : Z)
  | EvAclGet (path : string) (ty : acl_type)
  | EvAclSet (path : string) (ty : acl_type) (a : list acl_entry)
  | EvConverting (path : string)               (* "Converting: %s" *)
  | EvProcessed (files errors : Z)             (* "Processed %d files (errors: %d)" *)
  | EvErrorConverting (path : string).         (* "Error converting %s" *)

(** ** The state threaded through the program *)

Record state := State {
  g_offset : Z;
  g_files_processed : Z;
  g_errors : Z;
  inode_table : gmap Z (list key);
  allocs : nat;                       (* number of malloc calls so far *)
  links : gmap string key;            (* directory entries: path -> (device, inode) *)
  inodes : gmap key inode;
  files : gmap string string;         (* contents of the text files *)
  trace : list event
}.

(** The directory tree as [nftw] reports it: an entry and, for a directory
    that is walked, its entries in [readdir] order. *)
#[warnings="-register-all"]
Inductive dirtree := Entry (path : string) (children : list dirtree).

(** ** The environment *)

Record env := Env {
  malloc_fails : nat -> bool;
  lchown_fails : string -> bool;
  chmod_fails : string -> bool;
  acl_get_error : string -> acl_type -> option errno;
  acl_entry_fault : string -> acl_type -> nat -> option acl_fault;
  acl_set_fails : string -> acl_type -> bool;
  nftw_tree : string -> dirtree;
  nftw_fails_after : string -> option nat;
  is_container_running : Z -> bool;
  fopen_read_fails : string -> bool;
  fopen_write_fails : string -> bool;
  rename_fails : string -> bool;
  stdin : string;                     (* what the operator types *)
  geteuid : Z
}.

(** ** State updates *)

Definition log (ev : event) (s : state) : state :=
  State (g_offset s) (g_files_processed s) (g_errors s) (inode_table s)
        (allocs s) (links s) (inodes s) (files s) (ev :: trace s).

Definition set_inodes (m : gmap key inode) (s : state) : state :=
  State (g_offset s) (g_files_processed s) (g_errors s) (inode_table s)
        (allocs s) (links s) m (files s) (trace s).

Definition set_files (m : gmap string string) (s : state) : state :=
  State (g_offset s) (g_files_processed s) (g_errors s) (inode_table s)
        (allocs s) (links s) (inodes s) m (trace s).

Definition set_table (t : gmap Z (list key)) (n : nat) (s : state) : state :=
  State (g_offset s) (g_files_processed s) (g_errors s) t
        n (links s) (inodes s) (files s) (trace s).

Definition set_globals (offset processed errors : Z) (s : state) : state :=
  State offset processed errors (inode_table s)
        (allocs s) (links s) (inodes s) (files s) (trace s).

(** [g_errors++] and [g_files_processed++] on [uint64_t]. *)
Definition incr_errors (s : state) : state :=
  set_globals (g_offset s) (g_files_processed s) (to_u64 (g_errors s + 1)) s.

Definition incr_processed (s : state) : state :=
  set_globals (g_offset s) (to_u64 (g_files_processed s + 1)) (g_errors s) s.

(** ** The inode hash table, continued *)

(** [inode_seen], lines 54-65. *)
Definition inode_seen (dev ino : Z) (s : state) : bool :=
  chain_has dev ino (bucket (inode_table s) (inode_hash dev ino)).

(** [inode_mark_seen], lines 68-79: when [malloc] fails the function
    returns with the table as it was. *)
Definition inode_mark_seen (E : env) (dev ino : Z) (s : state) : state :=
  let h := inode_hash dev ino in
  if malloc_fails E (allocs s) then set_table (inode_table s) (S (allocs s)) s
  else set_table (<[h := (dev, ino) :: bucket (inode_table s) h]> (inode_table s))
                 (S (allocs s)) s.

(** [free_inode_table], lines 82-92. *)
Definition free_inode_table (s : state) : state :=
  set_table ∅ (allocs s) s.

(** ** System calls on the modelled file system *)

Definition stat_of (k : key) (i : inode) : stat_t :=
  Stat (fst k) (snd k) (i_mode i) (i_uid i) (i_gid i).

(** [lstat]: the entry itself. *)
Definition lstat (s : state) (path : string) : option stat_t :=
  match links s !! path with
  | None => None
  | Some k => match inodes s !! k with
              | None => None
              | Some i => Some (stat_of k i)
              end
  end.

(** Path resolution that follows symbolic links, at most [fuel] of them
    (the kernel gives up with ELOOP after 40). *)
Fixpoint resolve (fuel : nat) (s : state) (path : string) : option key :=
  match links s !! path with
  | None => None
  | Some k =>
      match inodes s !! k with
      | None => None
      | Some i =>
          if S_ISLNK (i_mode i) then
            match fuel with
            | O => None
            | S fuel' => resolve fuel' s (i_target i)
            end
          else Some k
      end
  end.

Definition MAXSYMLINKS : nat := 40.

(** [stat]: the object the path leads to. *)
Definition stat (s : state) (path : string) : option stat_t :=
  match resolve MAXSYMLINKS s path with
  | None => None
  | Some k => match inodes s !! k with
              | None => None
              | Some i => Some (stat_of k i)
              end
  end.

(** What a change of owner leaves of the mode: on a file that is not a
    directory the kernel drops the set-user-id bit, and the set-group-id
    bit when the file is group-executable. *)
Definition chown_mode (m : Z) : Z :=
  if S_ISDIR m then m
  else
    let m1 := Z.land m (Z.lnot S_ISUID) in
    if Z.land m S_IXGRP =? 0 then m1 else Z.land m1 (Z.lnot S_ISGID).

(** [lchown(path, uid, gid)]: changes the entry itself, never what a
    symbolic link points to.  Returns 0 or -1. *)
Definition lchown (E : env) (path : string) (uid gid : Z) (s : state) : Z * state :=
  let s1 := log (EvLchown path uid gid) s in
  if lchown_fails E path then (-1, s1)
  else
    match links s1 !! path with
    | None => (-1, s1)
    | Some k =>
        match inodes s1 !! k with
        | None => (-1, s1)
        | Some i =>
            (0, set_inodes
                  (<[k := Inode (chown_mode (i_mode i)) uid gid (i_acl_access i)
                                (i_acl_default i) (i_target i)]> (inodes s1)) s1)
        end
    end.

(** [chmod(path, mode)]: follows symbolic links; only the permission bits
    of [mode] are used.  Returns 0 or -1. *)
Definition chmod (E : env) (path : string) (mode : Z) (s : state) : Z * state :=
  let s1 := log (EvChmod path mode) s in
  if chmod_fails E path then (-1, s1)
  else
    match resolve MAXSYMLINKS s1 path with
    | None => (-1, s1)
    | Some k =>
        match inodes s1 !! k with
        | None => (-1, s1)
        | Some i =>
            (0, set_inodes
                  (<[k := Inode (Z.lor (Z.land (i_mode i) S_IFMT) (Z.land mode MODE_BITS))
                                (i_uid i) (i_gid i) (i_acl_access i)
                                (i_acl_default i) (i_target i)]> (inodes s1)) s1)
        end
    end.

Definition acl_of (ty : acl_type) (i : inode) : list acl_entry :=
  match ty with
  | ACL_TYPE_ACCESS => i_acl_access i
  | ACL_TYPE_DEFAULT => i_acl_default i
  end.

Definition with_acl (ty : acl_type) (a : list acl_entry) (i : inode) : inode :=
  match ty with
  | ACL_TYPE_ACCESS =>
      Inode (i_mode i) (i_uid i) (i_gid i) a (i_acl_default i) (i_target i)
  | ACL_TYPE_DEFAULT =>
      Inode (i_mode i) (i_uid i) (i_gid i) (i_acl_access i) a (i_target i)
  end.

(** [acl_get_file(path, type)]: the ACL, or the [errno] left with NULL. *)
Definition acl_get_file (E : env) (path : string) (ty : acl_type) (s : state)
  : errno + list acl_entry :=
  match acl_get_error E path ty with
  | Some e => inl e
  | None =>
      match resolve MAXSYMLINKS s path with
      | None => inl EOTHER
      | Some k => match inodes s !! k with
                  | None => inl EOTHER
                  | Some i => inr (acl_of ty i)
                  end
      end
  end.

(** [acl_set_file(path, type, acl)].  Returns 0 or -1. *)
Definition acl_set_file (E : env) (path : string) (ty : acl_type)
    (a : list acl_entry) (s : state) : Z * state :=
  let s1 := log (EvAclSet path ty a) s in
  if acl_set_fails E path ty then (-1, s1)
  else
    match resolve MAXSYMLINKS s1 path with
    | None => (-1, s1)
    | Some k =>
        match inodes s1 !! k with
        | None => (-1, s1)
        | Some i => (0, set_inodes (<[k := with_acl ty a i]> (inodes s1)) s1)
        end
    end.

(** ** [shift_acl], lines 95-170 *)

Definition fault_is (f : option acl_fault) (g : acl_fault) : bool :=
  match f, g with
  | Some TagFails, TagFails => true
  | Some QualifierNull, QualifierNull => true
  | Some SetQualifierFails, SetQualifierFails => true
  | _, _ => false
  end.

(** The [while (acl_get_entry ...)] loop over the entries of the in-memory
    ACL, entry [idx] first.  [None] is a [return -1] from inside the loop;
    otherwise the ACL as rewritten in memory and [needs_update]. *)
Fixpoint shift_entries (E : env) (path : string) (ty : acl_type) (offset : Z)
    (idx : nat) (entries : list acl_entry) : option (list acl_entry * bool) :=
  match entries with
  | [] => Some ([], false)
  | e :: rest =>
      let fault := acl_entry_fault E path ty idx in
      if fault_is fault TagFails then None
      else if is_user_or_group (e_tag e) then
        if fault_is fault QualifierNull then
          match shift_entries E path ty offset (S idx) rest with
          | None => None
          | Some (rest', needs_update) => Some (e :: rest', needs_update)
          end
        else
          match shift_id offset (e_id e) with
          | None => None
          | Some new_id =>
              if fault_is fault SetQualifierFails then None
              else
                match shift_entries E path ty offset (S idx) rest with
                | None => None
                | Some (rest', _) =>
                    Some (AclEntry (e_tag e) new_id (e_perm e) :: rest', true)
                end
          end
      else
        match shift_entries E path ty offset (S idx) rest with
        | None => None
        | Some (rest', needs_update) => Some (e :: rest', needs_update)
        end
  end.

Definition acl_unsupported (e : errno) : bool :=
  match e with ENOTSUP | ENOSYS => true | EOTHER => false end.

Definition shift_acl (E : env) (path : string) (ty : acl_type) (offset : Z)
    (s : state) : Z * state :=
  let s1 := log (EvAclGet path ty) s in
  match acl_get_file E path ty s1 with
  | inl e => (if acl_unsupported e then 0 else -1, s1)
  | inr a =>
      match shift_entries E path ty offset 0 a with
      | None => (-1, s1)
      | Some (a', needs_update) =>
          if needs_update then
            let '(r, s2) := acl_set_file E path ty a' s1 in
            (if r =? -1 then -1 else 0, s2)
          else (0, s1)
      end
  end.

(** ** [process_file], lines 173-257

    The [nftw] callback.  Returns 0 (continue the walk) or 1 (stop it). *)

(** Lines 216-256: the mutation, once the new owner is known. *)
Definition apply_ids (E : env) (fpath : string) (sb : stat_t)
    (new_uid new_gid : Z) (s : state) : Z * state :=
  let '(r, s1) := lchown E fpath new_uid new_gid s in
  if r =? -1 then (0, incr_errors s1)
  else
    let s4 :=
      if negb (S_ISLNK (st_mode sb)) then
        let s2 := snd (chmod E fpath (st_mode sb) s1) in
        let s3 := snd (shift_acl E fpath ACL_TYPE_ACCESS (g_offset s2) s2) in
        if S_ISDIR (st_mode sb)
        then snd (shift_acl E fpath ACL_TYPE_DEFAULT (g_offset s3) s3)
        else s3
      else s1 in
    (0, incr_processed s4).

Definition process_file (E : env) (fpath : string) (s : state) : Z * state :=
  match lstat s fpath with
  | None => (0, incr_errors s)
  | Some sb =>
      if inode_seen (st_dev sb) (st_ino sb) s then (0, s)
      else
        let s1 := inode_mark_seen E (st_dev sb) (st_ino sb) s in
        match shift_id (g_offset s1) (st_uid sb), shift_id (g_offset s1) (st_gid sb) with
        | Some new_uid, Some new_gid => apply_ids E fpath sb new_uid new_gid s1
        | _, _ => (1, incr_errors s1)
        end
  end.

(** ** The tree walk *)

(** The entries in the order [nftw] reports them without FTW_DEPTH: a
    directory before what it contains. *)
Fixpoint preorder (t : dirtree) : list string :=
  match t with
  | Entry path children => path :: concat (map preorder children)
  end.

(** [nftw], a function of the C library, after its manual page: it calls
    [fn] on every entry until one call returns non-zero, which becomes the
    result; it returns 0 when the whole tree was walked, and -1 when the
    walk itself fails, which the environment places after a number of
    entries. *)
Fixpoint nftw_entries (fn : string -> state -> Z * state) (entries : list string)
    (fails_after : option nat) (s : state) : Z * state :=
  match fails_after with
  | Some O => (-1, s)
  | _ =>
      match entries with
      | [] => (0, s)
      | e :: rest =>
          let '(r, s1) := fn e s in
          if r =? 0 then nftw_entries fn rest (Nat.pred <$> fails_after) s1
          else (r, s1)
      end
  end.

Definition nftw (E : env) (dirpath : string) (fn : string -> state -> Z * state)
    (s : state) : Z * state :=
  nftw_entries fn (preorder (nftw_tree E dirpath)) (nftw_fails_after E dirpath) s.

(** ** [convert_path], lines 260-290 *)

Definition convert_path (E : env) (path : string) (offset : Z) (s : state)
  : Z * state :=
  let s0 := log (EvConverting path) s in
  match stat s0 path with
  | None => (-1, s0)
  | Some sb =>
      if negb (S_ISDIR (st_mode sb)) then (-1, s0)
      else
        let s1 := set_globals offset 0 0 s0 in
        let '(r, s2) := nftw E path (process_file E) s1 in
        if r =? -1 then (-1, s2)
        else
          let s3 := log (EvProcessed (g_files_processed s2) (g_errors s2)) s2 in
          (if 0 <? g_errors s3 then -1 else 0, s3)
  end.

(** The loop of lines 634-640: every path is converted, whatever the
    earlier ones returned. *)
Fixpoint convert_paths (E : env) (paths : list string) (offset : Z)
    (overall_result : Z) (s : state) : Z * state :=
  match paths with
  | [] => (overall_result, s)
  | path :: rest =>
      let '(r, s1) := convert_path E path offset s in
      if r =? -1
      then convert_paths E rest offset 1 (log (EvErrorConverting path) s1)
      else convert_paths E rest offset overall_result s1
  end.

(** ** C strings

    A buffer is a [string]; the C string it holds ends before the first
    NUL. *)

Definition NUL : ascii := "000"%char.
Definition NL : ascii := "010"%char.

Fixpoint cstr (buf : string) : string :=
  match buf with
  | "" => ""
  | String c rest => if Ascii.eqb c NUL then "" else String c (cstr rest)
  end.

Definition first_char (s : string) : ascii :=
  match s with
  | "" => NUL
  | String c _ => c
  end.

(** [strncmp(a, b, n) == 0]. *)
Fixpoint strncmp_eq (a b : string) (n : nat) : bool :=
  match n with
  | O => true
  | S n' =>
      match a, b with
      | "", "" => true
      | String x a', String y b' => if Ascii.eqb x y then strncmp_eq a' b' n' else false
      | _, _ => false
      end
  end.

(** [strchr(s, c)]: the suffix of [s] that starts at the first [c]. *)
Fixpoint strchr (s : string) (c : ascii) : option string :=
  match s with
  | "" => None
  | String x rest => if Ascii.eqb x c then Some s else strchr rest c
  end.

(** The part of [s] before the first [c] (all of [s] without a [c]). *)
Fixpoint before (s : string) (c : ascii) : string :=
  match s with
  | "" => ""
  | String x rest => if Ascii.eqb x c then "" else String x (before rest c)
  end.

(** [isspace] in the C locale. *)
Definition isspace (c : ascii) : bool :=
  let n := Z.of_nat (nat_of_ascii c) in
  (n =? 32) || ((9 <=? n) && (n <=? 13)).

Fixpoint skip_spaces (s : string) : string :=
  match s with
  | "" => ""
  | String c rest => if isspace c then skip_spaces rest else s
  end.

(** [while (len > 0 && isspace(start[len-1])) len--]. *)
Fixpoint rtrim (s : string) : string :=
  match s with
  | "" => ""
  | String c rest =>
      match rtrim rest with
      | "" => if isspace c then "" else String c ""
      | r => String c r
      end
  end.

Fixpoint str_take (n : nat) (s : string) : string :=
  match n, s with
  | S n', String c rest => String c (str_take n' rest)
  | _, _ => ""
  end.

Fixpoint str_drop (n : nat) (s : string) : string :=
  match n, s with
  | S n', String _ rest => str_drop n' rest
  | _, _ => s
  end.

Definition strlen (s : string) : Z := Z.of_nat (String.length s).

(** [snprintf(buf, size, ...)] keeps at most [size - 1] characters. *)
Definition snprintf (size : Z) (s : string) : string :=
  str_take (Z.to_nat (size - 1)) s.

Definition is_digit (c : ascii) : bool :=
  let n := Z.of_nat (nat_of_ascii c) in (48 <=? n) && (n <=? 57).

Fixpoint digits_value (s : string) (acc : Z) : Z :=
  match s with
  | "" => acc
  | String c rest =>
      if is_digit c
      then digits_value rest (10 * acc + (Z.of_nat (nat_of_ascii c) - 48))
      else acc
  end.

(** [strtol(s, NULL, 10)]: blanks, a sign, digits; the value saturates at
    the ends of [long]. *)
Definition strtol (s : string) : Z :=
  match skip_spaces s with
  | String "-" rest => Z.max (- 2 ^ 63) (- digits_value rest 0)
  | String "+" rest => Z.min (2 ^ 63 - 1) (digits_value rest 0)
  | t => Z.min (2 ^ 63 - 1) (digits_value t 0)
  end.

(** [atoi(s)] is [(int) strtol(s, NULL, 10)]. *)
Definition atoi (s : string) : Z := to_int (strtol s).

(** ["%d"] *)
Definition fmt_d (n : Z) : string := pretty n.

(** ** Reading a text file with [fgets]

    The buffers that successive [fgets(line, size, fp)] calls return until
    end of file: each holds at most [size - 1] characters and ends after a
    newline.  [room] is what is left of the buffer being filled. *)
Fixpoint fgets_from (size room : Z) (content : string) : list string :=
  match content with
  | "" => []
  | String c rest =>
      if Ascii.eqb c NL || (room <=? 1)
      then String c "" :: fgets_from size (size - 1) rest
      else
        match fgets_from size (room - 1) rest with
        | [] => [String c ""]
        | line :: lines => String c line :: lines
        end
  end.

Definition fgets_all (size : Z) (content : string) : list string :=
  fgets_from size (size - 1) content.

(** ** The configuration reader, lines 293-419 *)

(** [sscanf(spec, "%255[^:]:%511s", pool, subvol) == 2], and the two
    strings. *)
Fixpoint scan_not_colon (max : nat) (s : string) : string * string :=
  match max, s with
  | S max', String c rest =>
      if Ascii.eqb c ":" then ("", s)
      else let '(got, more) := scan_not_colon max' rest in (String c got, more)
  | _, _ => ("", s)
  end.

Fixpoint scan_word (max : nat) (s : string) : string :=
  match max, s with
  | S max', String c rest => if isspace c then "" else String c (scan_word max' rest)
  | _, _ => ""
  end.

Definition sscanf_pool_subvol (spec : string) : option (string * string) :=
  let '(pool, more) := scan_not_colon 255 spec in
  match pool, more with
  | String _ _, String ":" after =>
      match scan_word 511 (skip_spaces after) with
      | "" => None
      | subvol => Some (pool, subvol)
      end
  | _, _ => None
  end.

(** [parse_storage_path], lines 293-310; [None] is -1. *)
Definition parse_storage_path (storage_spec : string) (path_len : Z) : option string :=
  if Ascii.eqb (first_char storage_spec) "/" then Some (snprintf path_len storage_spec)
  else
    match sscanf_pool_subvol storage_spec with
    | Some (pool, subvol) => Some (snprintf path_len ("/" ++ pool ++ "/" ++ subvol))
    | None => None
    end.

(** [extract_storage_spec], lines 313-341; [None] is -1. *)
Definition extract_storage_spec (line : string) (spec_len : Z) : option string :=
  match strchr line ":" with
  | None => None
  | Some at_colon =>
      let start := skip_spaces (str_drop 1 at_colon) in
      let spec :=
        match strchr start "," with
        | Some _ => before start ","
        | None => rtrim start
        end in
      if spec_len <=? strlen spec then None else Some spec
  end.

Definition str_eqb (a b : string) : bool := bool_decide (a = b).

(** The loop of lines 359-410 over the buffers read; [None] is the
    [return -1] of line 388. *)
Fixpoint read_config_lines (lines : list string) (paths : list string)
    (current_unprivileged : Z) : option (list string * Z) :=
  match lines with
  | [] => Some (paths, current_unprivileged)
  | buf :: rest =>
      let line := before (cstr buf) NL in
      if Ascii.eqb (first_char line) "[" then Some (paths, current_unprivileged)
      else if strncmp_eq line "unprivileged:" 13 then
        read_config_lines rest paths (atoi (skip_spaces (str_drop 13 line)))
      else if strncmp_eq line "rootfs:" 7
              || (strncmp_eq line "mp" 2 && bool_decide (is_Some (strchr line ":"))) then
        match extract_storage_spec line 512 with
        | Some storage_spec =>
            if MAX_PATHS <=? Z.of_nat (length paths) then None
            else
              match parse_storage_path storage_spec MAX_PATH_LEN with
              | Some temp_path =>
                  if existsb (str_eqb temp_path) paths
                  then read_config_lines rest paths current_unprivileged
                  else read_config_lines rest
                         (paths ++ [snprintf MAX_PATH_LEN temp_path])
                         current_unprivileged
              | None => read_config_lines rest paths current_unprivileged
              end
        | None => read_config_lines rest paths current_unprivileged
        end
      else read_config_lines rest paths current_unprivileged
  end.

(** [read_config], lines 344-419; [None] is -1. *)
Definition read_config (E : env) (config_path : string) (s : state)
  : option (list string * Z) :=
  if fopen_read_fails E config_path then None
  else
    match files s !! config_path with
    | None => None
    | Some content => read_config_lines (fgets_all MAX_LINE content) [] (-1)
    end.

(** ** The configuration writer, lines 422-485 *)

(** ["unprivileged: %d\n"] *)
Definition flag_line (new_unprivileged : Z) : string :=
  "unprivileged: " ++ fmt_d new_unprivileged ++ String NL "".

(** The loop of lines 449-467 over the buffers read: what is written to
    the temporary file, piece by piece, and the final [updated]. *)
Fixpoint copy_lines (lines : list string) (new_unprivileged : Z)
    (updated in_snapshot : bool) : list string * bool :=
  match lines with
  | [] => ([], updated)
  | buf :: rest =>
      let line := cstr buf in
      if Ascii.eqb (first_char line) "[" then
        if negb updated && negb in_snapshot then
          let '(out, u) := copy_lines rest new_unprivileged true true in
          (flag_line new_unprivileged :: line :: out, u)
        else
          let '(out, u) := copy_lines rest new_unprivileged updated true in
          (line :: out, u)
      else if negb in_snapshot && strncmp_eq line "unprivileged:" 13 then
        let '(out, u) := copy_lines rest new_unprivileged true in_snapshot in
        (flag_line new_unprivileged :: out, u)
      else
        let '(out, u) := copy_lines rest new_unprivileged updated in_snapshot in
        (line :: out, u)
  end.

(** Lines 448-472: everything written to the temporary file. *)
Definition patch_lines (lines : list string) (new_unprivileged : Z) : list string :=
  let '(out, updated) := copy_lines lines new_unprivileged false false in
  if updated then out else out ++ [flag_line new_unprivileged].

Definition str_concat (pieces : list string) : string :=
  foldr String.append "" pieces.

Definition patch_config (content : string) (new_unprivileged : Z) : string :=
  str_concat (patch_lines (fgets_all MAX_LINE content) new_unprivileged).

(** [update_config]; returns 0 or -1. *)
Definition update_config (E : env) (config_path : string) (new_unprivileged : Z)
    (s : state) : Z * state :=
  let temp_path := snprintf (MAX_PATH_LEN + 8) (config_path ++ ".tmp") in
  if MAX_PATH_LEN - 5 <? strlen config_path then (-1, s)
  else if fopen_read_fails E config_path then (-1, s)
  else
    match files s !! config_path with
    | None => (-1, s)
    | Some content =>
        if fopen_write_fails E temp_path then (-1, s)
        else
          let written := patch_config content new_unprivileged in
          if rename_fails E temp_path
          then (-1, set_files (delete temp_path (files s)) s)
          else (0, set_files (<[config_path := written]> (delete temp_path (files s))) s)
    end.

(** ** [main], lines 541-663: the exit status and the final state *)

Definition parse_mode (arg : string) : option (Z * Z) :=
  if str_eqb arg "unprivileged" then Some (1, UID_GID_OFFSET)
  else if str_eqb arg "privileged" then Some (0, - UID_GID_OFFSET)
  else None.

(** Lines 633-662, once the operator has confirmed as root. *)
Definition convert_and_commit (E : env) (config_path : string)
    (paths : list string) (target_unprivileged offset : Z) (s : state) : Z * state :=
  let '(overall_result, s1) := convert_paths E paths offset 0 s in
  if negb (overall_result =? 0) then (1, free_inode_table s1)
  else
    let '(r, s2) := update_config E config_path target_unprivileged s1 in
    if r =? -1 then (1, free_inode_table s2) else (0, free_inode_table s2).

(** ["/etc/pve/lxc/%d.conf"], line 583. *)
Definition config_path_of (container_num : Z) : string :=
  snprintf MAX_PATH_LEN ("/etc/pve/lxc/" ++ fmt_d container_num ++ ".conf").

Definition main (E : env) (argv : list string) (s : state) : Z * state :=
  match argv with
  | [_; arg1; arg2] =>
      let container_num := atoi arg1 in
      if container_num <=? 0 then (1, s)
      else
        match parse_mode arg2 with
        | None => (1, s)
        | Some (target_unprivileged, offset) =>
            if is_container_running E container_num then (1, s)
            else
              let config_path := config_path_of container_num in
              match read_config E config_path s with
              | None => (1, s)
              | Some (paths, current_unprivileged) =>
                  if Z.of_nat (length paths) =? 0 then (1, s)
                  else if negb (current_unprivileged =? -1)
                          && (current_unprivileged =? target_unprivileged) then (0, s)
                  else
                    if str_eqb (stdin E) ""
                       || (negb (Ascii.eqb (first_char (stdin E)) "y")
                           && negb (Ascii.eqb (first_char (stdin E)) "Y")) then (0, s)
                    else if negb (geteuid E =? 0) then (1, s)
                    else convert_and_commit E config_path paths target_unprivileged offset s
              end
        end
  | _ => (1, s)
  end.

(** ** Vocabulary of the properties *)

(** Two states of one run that differ at most in the inode map and in the
    trace. *)
Definition same_run (s s' : state) : Prop :=
  g_offset s' = g_offset s /\ g_files_processed s' = g_files_processed s
  /\ g_errors s' = g_errors s /\ inode_table s' = inode_table s
  /\ allocs s' = allocs s /\ links s' = links s /\ files s' = files s.

(** The trace only grows. *)
Definition extends (s s' : state) : Prop :=
  exists evs, trace s' = (evs ++ trace s)%list.



(** The three ways the object converter changes an object. *)
Inductive mutation := MOwner | MMode | MAcl (ty : acl_type).

Definition acl_type_eqb (a b : acl_type) : bool :=
  match a, b with
  | ACL_TYPE_ACCESS, ACL_TYPE_ACCESS => true
  | ACL_TYPE_DEFAULT, ACL_TYPE_DEFAULT => true
  | _, _ => false
  end.

(** The event is a mutation of kind [m] issued on a directory entry of the
    inode [k].  ([chmod] and [acl_set_file] are only issued on entries that
    are not symbolic links, so the entry is the object.) *)
Definition mutates (l : gmap string key) (k : key) (m : mutation) (ev : event) : bool :=
  match ev, m with
  | EvLchown p _ _, MOwner => bool_decide (l !! p = Some k)
  | EvChmod p _, MMode => bool_decide (l !! p = Some k)
  | EvAclSet p ty _, MAcl ty' => acl_type_eqb ty ty' && bool_decide (l !! p = Some k)
  | _, _ => false
  end.

Fixpoint mutation_count (l : gmap string key) (k : key) (m : mutation)
    (t : list event) : nat :=
  match t with
  | [] => O
  | ev :: t' => ((if mutates l k m ev then 1 else 0) + mutation_count l k m t')%nat
  end.

(** Every inode that was mutated is in the hash table, and was mutated
    once. *)
Definition dedup_inv (s : state) : Prop :=
  forall (k : key) (m : mutation),
    (mutation_count (links s) k m (trace s) <= 1)%nat
    /\ ((0 < mutation_count (links s) k m (trace s))%nat ->
        inode_seen (fst k) (snd k) s = true).

(** The walk of [path] started in [s] completes ([nftw] returns 0, so
    every entry was handed to [process_file], which returned 0 each time)
    and counts no error. *)
Definition walk_clean (E : env) (path : string) (offset : Z) (s : state) : Prop :=
  exists sb : stat_t,
    stat (log (EvConverting path) s) path = Some sb
    /\ S_ISDIR (st_mode sb) = true
    /\ fst (nftw E path (process_file E)
              (set_globals offset 0 0 (log (EvConverting path) s))) = 0
    /\ g_errors (snd (nftw E path (process_file E)
                       (set_globals offset 0 0 (log (EvConverting path) s)))) = 0.

(** Every path of the run, in turn, has a clean walk. *)
Fixpoint all_clean (E : env) (offset : Z) (paths : list string) (s : state) : Prop :=
  match paths with
  | [] => True
  | path :: rest =>
      walk_clean E path offset s
      /\ all_clean E offset rest (snd (convert_path E path offset s))
  end.

(** No tree of the run has as many entries as [uint64_t] has values. *)
Definition countable_trees (E : env) (paths : list string) : Prop :=
  Forall (fun path => Z.of_nat (length (preorder (nftw_tree E path))) < 2 ^ 64 - 1) paths.

(** All entries of the hash table, and the number of them for one pair. *)
Definition table_keys (s : state) : list key :=
  concat (snd <$> map_to_list (inode_table s)).

Fixpoint count_key (k : key) (l : list key) : nat :=
  match l with
  | [] => O
  | (d, i) :: rest =>
      ((if ((d =? fst k) && (i =? snd k))%Z then 1 else 0) + count_key k rest)%nat
  end.






(** ** Vocabulary of the further properties *)

(** Marking a list of pairs, one after the other. *)
Definition mark_all (E : env) (ks : list key) (s : state) : state :=
  fold_left (fun s' k => inode_mark_seen E (fst k) (snd k) s') ks s.


(** The character [c] does not occur in [s]. *)
Fixpoint lacks (c : ascii) (s : string) : bool :=
  match s with
  | "" => true
  | String x rest => negb (Ascii.eqb x c) && lacks c rest
  end.

(** No character of [s] is white space. *)
Fixpoint no_space (s : string) : bool :=
  match s with
  | "" => true
  | String x rest => negb (isspace x) && no_space rest
  end.




(** ** Concrete environments and trees

    Used to run the definitions above on explicit inputs. *)

Module Examples.

(** An environment in which nothing fails; the operator answers yes as
    root. *)
Definition quiet (tree : string -> dirtree) : env :=
  Env (fun _ => false) (fun _ => false) (fun _ => false)
      (fun _ _ => None) (fun _ _ _ => None) (fun _ _ => false)
      tree (fun _ => None) (fun _ => false)
      (fun _ => false) (fun _ => false) (fun _ => false)
      "y" 0.

Definition start (offset : Z) (l : gmap string key) (i : gmap key inode)
    (f : gmap string string) : state :=
  State offset 0 0 ∅ 0 l i f [].

Definition plain (mode uid gid : Z) : inode := Inode mode uid gid [] [] "".

Definition REG : Z := 0x81A4.   (* regular file, 0644 *)
Definition DIR : Z := 0x41ED.   (* directory, 0755 *)
Definition LNK : Z := 0xA1FF.   (* symbolic link, 0777 *)


(** One file owned by 150000:1000. *)
Definition low_owner_up : state :=
  start UID_GID_OFFSET
        {[ "/ct/f" := (1, 7) ]}
        {[ (1, 7) := plain REG 150000 1000 ]}
        ∅.


(** A file with an extended ACL, and one whose ACL names the uid 150000. *)
Definition acl_ok : list acl_entry :=
  [AclEntry ACL_USER_OBJ 0 6; AclEntry ACL_USER 1000 6; AclEntry ACL_GROUP_OBJ 0 4;
   AclEntry ACL_GROUP 2000 4; AclEntry ACL_MASK 0 6; AclEntry ACL_OTHER 0 4].


Definition with_acls (a : list acl_entry) : state :=
  start UID_GID_OFFSET
        {[ "/ct/f" := (1, 7) ]}
        {[ (1, 7) := Inode REG 1000 1000 a [] "" ]}
        ∅.


(** A file and a symbolic link to it. *)
Definition with_symlink : state :=
  start UID_GID_OFFSET
        {[ "/ct/f" := (1, 7); "/ct/l" := (1, 9) ]}
        {[ (1, 7) := Inode REG 1000 1000 acl_ok [] "";
           (1, 9) := Inode LNK 1000 1000 [] [] "/ct/f" ]}
        ∅.

(** A directory with two names of one file owned by root. *)
Definition hardlink_tree : dirtree :=
  Entry "/ct" [Entry "/ct/a" []; Entry "/ct/b" []].

Definition hardlinks : state :=
  start 0
        {[ "/ct" := (1, 2); "/ct/a" := (1, 7); "/ct/b" := (1, 7) ]}
        {[ (1, 2) := plain DIR 0 0; (1, 7) := plain REG 0 0 ]}
        ∅.

(** An environment in which every [malloc] fails. *)
Definition no_memory : env :=
  Env (fun _ => true) (fun _ => false) (fun _ => false)
      (fun _ _ => None) (fun _ _ _ => None) (fun _ _ => false)
      (fun _ => hardlink_tree) (fun _ => None) (fun _ => false)
      (fun _ => false) (fun _ => false) (fun _ => false)
      "y" 0.

(** Two target paths: the first holds a file owned by 150000, the second
    is in order. *)
Definition conf_path : string := "/etc/pve/lxc/111.conf".

Definition conf_text : string :=
  "rootfs: /ct" ++ String NL ("mp0: /mp,mp=/data" ++ String NL
  ("unprivileged: 0" ++ String NL "")).

Definition two_roots : state :=
  start 0
        {[ "/ct" := (1, 2); "/ct/f" := (1, 7); "/ct/g" := (1, 8);
           "/mp" := (1, 3); "/mp/h" := (1, 9) ]}
        {[ (1, 2) := plain DIR 0 0; (1, 7) := plain REG 150000 1000;
           (1, 8) := plain REG 0 0;
           (1, 3) := plain DIR 0 0; (1, 9) := plain REG 5 5 ]}
        {[ conf_path := conf_text ]}.

Definition two_roots_tree (path : string) : dirtree :=
  if str_eqb path "/ct"
  then Entry "/ct" [Entry "/ct/f" []; Entry "/ct/g" []]
  else Entry "/mp" [Entry "/mp/h" []].

(** The two-level tree: [root/a] owned by 1000, [root/sub/b] a second name
    of the same file; the two orders in which [readdir] can list [root]. *)
Definition two_level : state :=
  start 0
        {[ "/root" := (1, 2); "/root/a" := (1, 7);
           "/root/sub" := (1, 3); "/root/sub/b" := (1, 7) ]}
        {[ (1, 2) := plain DIR 0 0; (1, 3) := plain DIR 0 0;
           (1, 7) := plain REG 1000 1000 ]}
        ∅.

Definition two_level_tree : dirtree :=
  Entry "/root" [Entry "/root/a" []; Entry "/root/sub" [Entry "/root/sub/b" []]].

Definition two_level_tree_rev : dirtree :=
  Entry "/root" [Entry "/root/sub" [Entry "/root/sub/b" []]; Entry "/root/a" []].

(** A configuration with the flag in the primary section and another in a
    snapshot section. *)
Definition snap_primary : list string := ["unprivileged: 0" ++ String NL ""].



(** An environment in which the container is running. *)
Definition busy : env :=
  Env (fun _ => false) (fun _ => false) (fun _ => false)
      (fun _ _ => None) (fun _ _ _ => None) (fun _ _ => false)
      two_roots_tree (fun _ => None) (fun _ => true)
      (fun _ => false) (fun _ => false) (fun _ => false)
      "y" 0.

(** A tree with a file owned by the uid 4294967294, in a container that
    is to become unprivileged. *)
Definition wrap_conf : string :=
  "rootfs: /ct" ++ String NL ("unprivileged: 0" ++ String NL "").

Definition wrap_owner : state :=
  start 0
        {[ "/ct" := (1, 2); "/ct/f" := (1, 7) ]}
        {[ (1, 2) := plain DIR 0 0; (1, 7) := plain REG 4294967294 0 ]}
        {[ conf_path := wrap_conf ]}.

Definition wrap_tree : string -> dirtree :=
  fun _ => Entry "/ct" [Entry "/ct/f" []].

Definition no_tree : string -> dirtree := fun _ => Entry "" [].

End Examples.

(** ** Further inputs *)

Module MoreExamples.

Definition quiet : env := Examples.quiet Examples.no_tree.

(** An ACL without named users or groups. *)
Definition acl_minimal : list acl_entry :=
  [AclEntry ACL_USER_OBJ 0 6; AclEntry ACL_GROUP_OBJ 0 4; AclEntry ACL_OTHER 0 4].


(** A set-user-id program owned by root, and a second name of it. *)
Definition SUID : Z := 0x89ED.   (* regular file, 04755 *)

Definition with_suid : state :=
  Examples.start UID_GID_OFFSET
    {[ "/ct/su" := (1, 11); "/ct/su2" := (1, 11); "/ct/f" := (1, 7) ]}
    {[ (1, 11) := Examples.plain SUID 0 0; (1, 7) := Examples.plain Examples.REG 5 5 ]}
    ∅.

(** An environment in which the owner of [/ct/su] cannot be changed. *)
Definition chown_denied : env :=
  Env (fun _ => false) (fun p => str_eqb p "/ct/su") (fun _ => false)
      (fun _ _ => None) (fun _ _ _ => None) (fun _ _ => false)
      Examples.no_tree (fun _ => None) (fun _ => false)
      (fun _ => false) (fun _ => false) (fun _ => false)
      "y" 0.

(** A configuration with a root file system and no flag line. *)
Definition flagless_text : string :=
  "arch: amd64" ++ String NL ("rootfs: /ct,size=8G" ++ String NL "").

Definition flagless : state :=
  Examples.start 0 {[ "/ct" := (1, 2) ]} {[ (1, 2) := Examples.plain Examples.DIR 0 0 ]}
                 {[ Examples.conf_path := flagless_text ]}.




End MoreExamples.

(** * Properties *)

Local Open Scope list_scope.

(** Closed facts about explicit inputs are settled by evaluation. *)
Ltac by_computation :=
  vm_compute; repeat split; try reflexivity; try discriminate; intuition congruence.

(** ** Machine arithmetic *)

Lemma to_uid_small (z : Z) : 0 <= z < 2 ^ 32 -> to_uid z = z.
Proof. intros H. unfold to_uid. apply Z.mod_small. exact H. Qed.

Lemma to_u64_small (z : Z) : 0 <= z < 2 ^ 64 -> to_u64 z = z.
Proof. intros H. unfold to_u64. apply Z.mod_small. exact H. Qed.

(** ** The identity transform *)

Lemma shift_id_up (o u : Z) :
  0 <= o < 2 ^ 32 -> 0 <= u -> u + o <= MAX_UID_GID -> shift_id o u = Some (u + o).
Proof.
  intros Ho Hu Hmax. unfold shift_id, MAX_UID_GID in *.
  destruct (Z.ltb_spec o 0) as [Hneg|_]; [lia|].
  rewrite (to_uid_small o) by lia.
  rewrite (to_uid_small (u + o)) by lia.
  destruct (Z.ltb_spec 200000 (u + o)) as [Hgt|_]; [lia|reflexivity].
Qed.

Lemma shift_id_down (o v : Z) :
  0 < o < 2 ^ 32 -> o <= v < 2 ^ 32 -> shift_id (- o) v = Some (v - o).
Proof.
  intros Ho Hv. unfold shift_id.
  destruct (Z.ltb_spec (- o) 0) as [_|Hge]; [|lia].
  rewrite Z.opp_involutive, (to_uid_small o) by lia.
  destruct (Z.ltb_spec v o) as [Hlt|_]; [lia|].
  rewrite to_uid_small by lia. reflexivity.
Qed.

Lemma shift_id_none_up (o old : Z) :
  0 <= o < 2 ^ 31 -> MAX_UID_GID < to_uid (old + o) -> shift_id o old = None.
Proof.
  intros Ho H. unfold shift_id.
  destruct (Z.ltb_spec o 0) as [?|_]; [lia|].
  rewrite (to_uid_small o) by lia.
  destruct (Z.ltb_spec MAX_UID_GID (to_uid (old + o))); [reflexivity|lia].
Qed.



(** C5.  For a uid or gid [u] and an offset [o >= 0] with
    [u + o <= MAX_UID_GID], shifting by [+o] gives [u + o] without a bounds
    error, and shifting that by [-o] gives back [u], again without a bounds
    error. *)
Theorem shift_id_roundtrip (u o : Z) :
  0 <= u -> 0 <= o -> u + o <= MAX_UID_GID ->
  shift_id o u = Some (u + o) /\ shift_id (- o) (u + o) = Some u.
Proof.
  intros Hu Ho Hmax.
  assert (Hb : u + o <= 200000) by exact Hmax.
  split.
  - apply shift_id_up; [lia | exact Hu | exact Hmax].
  - destruct (Z.eq_dec o 0) as [->|Hne].
    + rewrite Z.add_0_r. simpl (- 0).
      rewrite <- (Z.add_0_r u) at 2. apply shift_id_up; lia.
    + rewrite shift_id_down by lia. f_equal. lia.
Qed.

(** ** States of one run *)

Lemma same_run_refl (s : state) : same_run s s.
Proof. repeat split. Qed.

Lemma same_run_trans (s1 s2 s3 : state) :
  same_run s1 s2 -> same_run s2 s3 -> same_run s1 s3.
Proof.
  unfold same_run. intros (?&?&?&?&?&?&?) (?&?&?&?&?&?&?).
  repeat split; congruence.
Qed.

Lemma extends_refl (s : state) : extends s s.
Proof. exists []. reflexivity. Qed.

Lemma extends_trans (s1 s2 s3 : state) :
  extends s1 s2 -> extends s2 s3 -> extends s1 s3.
Proof.
  intros [e1 H1] [e2 H2]. exists (e2 ++ e1).
  rewrite H2, H1, app_assoc. reflexivity.
Qed.

Lemma extends_log (ev : event) (s : state) : extends s (log ev s).
Proof. exists [ev]. reflexivity. Qed.

Lemma extends_in (s s' : state) (ev : event) :
  extends s s' -> In ev (trace s) -> In ev (trace s').
Proof. intros [evs ->] H. apply in_or_app. right. exact H. Qed.

Lemma incr_errors_trace (s : state) : trace (incr_errors s) = trace s.
Proof. reflexivity. Qed.

Lemma incr_processed_trace (s : state) : trace (incr_processed s) = trace s.
Proof. reflexivity. Qed.

Lemma lstat_key (s : state) (p : string) (sb : stat_t) :
  lstat s p = Some sb -> links s !! p = Some (st_dev sb, st_ino sb).
Proof.
  unfold lstat. destruct (links s !! p) as [[d i]|]; [|discriminate].
  destruct (inodes s !! (d, i)); [|discriminate].
  intros H. inversion H. reflexivity.
Qed.

Lemma chain_has_In (d i : Z) (chain : list key) :
  chain_has d i chain = true <-> In (d, i) chain.
Proof.
  induction chain as [|[d' i'] rest IH]; simpl.
  - split; [discriminate|tauto].
  - destruct (Z.eqb_spec d' d) as [->|Hd]; simpl.
    + destruct (Z.eqb_spec i' i) as [->|Hi].
      * split; [left; reflexivity|reflexivity].
      * rewrite IH. split; [tauto|]. intros [H|H]; [congruence|exact H].
    + rewrite IH. split; [tauto|]. intros [H|H]; [congruence|exact H].
Qed.

(** ** Buffers and lines

    [fgets] cuts the text into pieces and loses nothing; when no line is
    longer than the buffer, the pieces are the lines of the text. *)












(** ** The configuration writer *)





(** ** The configuration reader *)

(** The reader stops at the first piece that begins a section: what
    follows, flag lines included, has no part in the result. *)
Lemma read_config_lines_primary (b : string) (rest : list string) :
  Ascii.eqb (first_char (before (cstr b) NL)) "[" = true ->
  forall (pre paths : list string) (cur : Z),
    Forall (fun l => Ascii.eqb (first_char (before (cstr l) NL)) "[" = false) pre ->
    read_config_lines (pre ++ b :: rest) paths cur = read_config_lines pre paths cur.
Proof.
  intros Hb. induction pre as [|l pre IH]; intros paths cur Hpre.
  - simpl. rewrite Hb. reflexivity.
  - inversion Hpre as [|? ? Hl Hrest]; subst. simpl. rewrite Hl.
    destruct (strncmp_eq _ "unprivileged:" 13); [apply IH; exact Hrest|].
    destruct (strncmp_eq _ "rootfs:" 7 || _); [|apply IH; exact Hrest].
    destruct (extract_storage_spec _ 512) as [spec|]; [|apply IH; exact Hrest].
    destruct (MAX_PATHS <=? _); [reflexivity|].
    destruct (parse_storage_path spec MAX_PATH_LEN) as [tp|]; [|apply IH; exact Hrest].
    destruct (existsb _ paths); apply IH; exact Hrest.
Qed.

(** ** The command line *)

Lemma parse_mode_target (arg : string) (target offset : Z) :
  parse_mode arg = Some (target, offset) -> target = 0 \/ target = 1.
Proof.
  unfold parse_mode. destruct (str_eqb arg "unprivileged").
  - intros H. inversion H. right. reflexivity.
  - destruct (str_eqb arg "privileged"); [|discriminate].
    intros H. inversion H. left. reflexivity.
Qed.

(** * Properties of a run in a given environment *)

Section Run.

Context (E : env).

(** ** Frame properties of the system calls

    A system call changes the inode map and the trace and nothing else of
    the state. *)

Lemma acl_get_file_log (p : string) (ty : acl_type) (ev : event) (s : state) :
  acl_get_file E p ty (log ev s) = acl_get_file E p ty s.
Proof.
  unfold acl_get_file. destruct (acl_get_error E p ty); [reflexivity|].
  assert (H : forall n q, resolve n (log ev s) q = resolve n s q).
  { induction n as [|n IH]; intros q; simpl;
      destruct (links s !! q) as [k|]; try reflexivity;
      destruct (inodes s !! k) as [i|]; try reflexivity;
      destruct (S_ISLNK (i_mode i)); try reflexivity. apply IH. }
  rewrite H. reflexivity.
Qed.

Lemma lchown_same_run (p : string) (u g : Z) (s : state) :
  same_run s (snd (lchown E p u g s)).
Proof.
  unfold lchown. destruct (lchown_fails E p); [repeat split|].
  simpl. destruct (links s !! p) as [k|]; [|repeat split].
  destruct (inodes s !! k); repeat split.
Qed.

Lemma chmod_same_run (p : string) (m : Z) (s : state) :
  same_run s (snd (chmod E p m s)).
Proof.
  unfold chmod. destruct (chmod_fails E p); [repeat split|].
  destruct (resolve _ _ _) as [k|]; [|repeat split].
  simpl. destruct (inodes s !! k); repeat split.
Qed.

Lemma acl_set_file_same_run (p : string) (ty : acl_type)
    (a : list acl_entry) (s : state) :
  same_run s (snd (acl_set_file E p ty a s)).
Proof.
  unfold acl_set_file. destruct (acl_set_fails E p ty); [repeat split|].
  destruct (resolve _ _ _) as [k|]; [|repeat split].
  simpl. destruct (inodes s !! k); repeat split.
Qed.

Lemma shift_acl_same_run (p : string) (ty : acl_type) (o : Z) (s : state) :
  same_run s (snd (shift_acl E p ty o s)).
Proof.
  unfold shift_acl.
  destruct (acl_get_file _ _ _ _) as [e|a]; [repeat split|].
  destruct (shift_entries _ _ _ _ _ _) as [[a' [|]]|];
    [|repeat split|repeat split].
  pose proof (acl_set_file_same_run p ty a' (log (EvAclGet p ty) s)) as H.
  destruct (acl_set_file _ _ _ _ _) as [r s2]. simpl in *. exact H.
Qed.

Lemma lchown_trace (p : string) (u g : Z) (s : state) :
  trace (snd (lchown E p u g s)) = EvLchown p u g :: trace s.
Proof.
  unfold lchown. destruct (lchown_fails E p); [reflexivity|].
  simpl. destruct (links s !! p) as [k|]; [|reflexivity].
  destruct (inodes s !! k); reflexivity.
Qed.

Lemma chmod_trace (p : string) (m : Z) (s : state) :
  trace (snd (chmod E p m s)) = EvChmod p m :: trace s.
Proof.
  unfold chmod. destruct (chmod_fails E p); [reflexivity|].
  destruct (resolve _ _ _) as [k|]; [|reflexivity].
  simpl. destruct (inodes s !! k); reflexivity.
Qed.

Lemma acl_set_file_trace (p : string) (ty : acl_type)
    (a : list acl_entry) (s : state) :
  trace (snd (acl_set_file E p ty a s)) = EvAclSet p ty a :: trace s.
Proof.
  unfold acl_set_file. destruct (acl_set_fails E p ty); [reflexivity|].
  destruct (resolve _ _ _) as [k|]; [|reflexivity].
  simpl. destruct (inodes s !! k); reflexivity.
Qed.

(** What [shift_acl] adds to the trace: the read, and at most one write. *)
Lemma shift_acl_trace (p : string) (ty : acl_type) (o : Z) (s : state) :
  trace (snd (shift_acl E p ty o s)) = EvAclGet p ty :: trace s
  \/ exists a, trace (snd (shift_acl E p ty o s))
               = EvAclSet p ty a :: EvAclGet p ty :: trace s.
Proof.
  unfold shift_acl.
  destruct (acl_get_file _ _ _ _) as [e|a]; [left; reflexivity|].
  destruct (shift_entries _ _ _ _ _ _) as [[a' [|]]|];
    [|left; reflexivity|left; reflexivity].
  right. exists a'.
  pose proof (acl_set_file_trace p ty a' (log (EvAclGet p ty) s)) as H.
  destruct (acl_set_file _ _ _ _ _) as [r s2]. simpl in *. exact H.
Qed.

Lemma shift_acl_extends (p : string) (ty : acl_type) (o : Z) (s : state) :
  extends s (snd (shift_acl E p ty o s)).
Proof.
  destruct (shift_acl_trace p ty o s) as [H|[a H]].
  - exists [EvAclGet p ty]. exact H.
  - exists [EvAclSet p ty a; EvAclGet p ty]. exact H.
Qed.

(** ** The ACL shift *)




(** ** The inode hash table *)

Lemma mark_seen_fields (d i : Z) (s : state) :
  let s1 := inode_mark_seen E d i s in
  g_offset s1 = g_offset s /\ g_files_processed s1 = g_files_processed s
  /\ g_errors s1 = g_errors s /\ links s1 = links s /\ inodes s1 = inodes s
  /\ files s1 = files s /\ trace s1 = trace s /\ allocs s1 = S (allocs s).
Proof.
  unfold inode_mark_seen. destruct (malloc_fails E (allocs s)); repeat split.
Qed.

Lemma inode_seen_mark_same (d i : Z) (s : state) :
  malloc_fails E (allocs s) = false ->
  inode_seen d i (inode_mark_seen E d i s) = true.
Proof.
  intros Hm. unfold inode_seen, inode_mark_seen. rewrite Hm. simpl.
  unfold bucket at 1. rewrite lookup_insert_eq. simpl.
  rewrite !Z.eqb_refl. reflexivity.
Qed.

Lemma inode_seen_mark_mono (d i d' i' : Z) (s : state) :
  inode_seen d' i' s = true ->
  inode_seen d' i' (inode_mark_seen E d i s) = true.
Proof.
  unfold inode_seen, inode_mark_seen. intros H.
  destruct (malloc_fails E (allocs s)); [exact H|]. simpl.
  unfold bucket at 1.
  destruct (decide (inode_hash d i = inode_hash d' i')) as [Heq|Hne].
  - rewrite Heq, lookup_insert_eq. simpl.
    destruct ((d =? d') && (i =? i')); [reflexivity|exact H].
  - rewrite lookup_insert_ne by exact Hne. exact H.
Qed.

(** ** The object converter *)

Lemma apply_ids_continues (p : string) (sb : stat_t) (u g : Z) (s : state) :
  fst (apply_ids E p sb u g s) = 0.
Proof.
  unfold apply_ids. destruct (lchown E p u g s) as [r s1].
  destruct (r =? -1); reflexivity.
Qed.

(** The object converter starts its mutation with the change of owner. *)
Lemma apply_ids_extends (p : string) (sb : stat_t) (u g : Z) (s : state) :
  extends (snd (lchown E p u g s)) (snd (apply_ids E p sb u g s)).
Proof.
  unfold apply_ids. destruct (lchown E p u g s) as [r s1]. simpl.
  destruct (r =? -1); [exists []; reflexivity|]. simpl.
  apply extends_trans with
    (s2 := if negb (S_ISLNK (st_mode sb))
           then
             let s2 := snd (chmod E p (st_mode sb) s1) in
             let s3 := snd (shift_acl E p ACL_TYPE_ACCESS (g_offset s2) s2) in
             if S_ISDIR (st_mode sb)
             then snd (shift_acl E p ACL_TYPE_DEFAULT (g_offset s3) s3)
             else s3
           else s1);
    [|exists []; reflexivity].
  destruct (negb (S_ISLNK (st_mode sb))); [|apply extends_refl].
  set (s2 := snd (chmod E p (st_mode sb) s1)).
  set (s3 := snd (shift_acl E p ACL_TYPE_ACCESS (g_offset s2) s2)).
  assert (H12 : extends s1 s2).
  { exists [EvChmod p (st_mode sb)]. apply chmod_trace. }
  assert (H23 : extends s2 s3) by apply shift_acl_extends.
  cbv zeta.
  destruct (S_ISDIR (st_mode sb)).
  - eapply extends_trans; [exact H12|].
    eapply extends_trans; [exact H23|]. apply shift_acl_extends.
  - eapply extends_trans; [exact H12|exact H23].
Qed.


Lemma apply_ids_frame (p : string) (sb : stat_t) (u g : Z) (s : state) :
  let s' := snd (apply_ids E p sb u g s) in
  inode_table s' = inode_table s /\ links s' = links s /\ allocs s' = allocs s
  /\ files s' = files s /\ g_offset s' = g_offset s.
Proof.
  assert (Hfin : forall s4, same_run s s4 ->
            (inode_table (incr_processed s4) = inode_table s
             /\ links (incr_processed s4) = links s
             /\ allocs (incr_processed s4) = allocs s
             /\ files (incr_processed s4) = files s
             /\ g_offset (incr_processed s4) = g_offset s)
            /\ (inode_table (incr_errors s4) = inode_table s
                /\ links (incr_errors s4) = links s
                /\ allocs (incr_errors s4) = allocs s
                /\ files (incr_errors s4) = files s
                /\ g_offset (incr_errors s4) = g_offset s)).
  { intros s4 (A & B & C & D & F & G & H). simpl. repeat split; assumption. }
  unfold apply_ids.
  pose proof (lchown_same_run p u g s) as H1.
  destruct (lchown E p u g s) as [r s1]. simpl in H1.
  destruct (r =? -1); [apply (Hfin s1 H1)|].
  destruct (negb (S_ISLNK (st_mode sb))); [|apply (Hfin s1 H1)].
  pose proof (chmod_same_run p (st_mode sb) s1) as H2.
  set (s2 := snd (chmod E p (st_mode sb) s1)) in *.
  pose proof (shift_acl_same_run p ACL_TYPE_ACCESS (g_offset s2) s2) as H3.
  set (s3 := snd (shift_acl E p ACL_TYPE_ACCESS (g_offset s2) s2)) in *.
  pose proof (shift_acl_same_run p ACL_TYPE_DEFAULT (g_offset s3) s3) as H4.
  assert (H13 : same_run s s3).
  { eapply same_run_trans; [exact H1|]. eapply same_run_trans; [exact H2|exact H3]. }
  destruct (S_ISDIR (st_mode sb)).
  - apply Hfin. eapply same_run_trans; [exact H13|exact H4].
  - apply Hfin. exact H13.
Qed.

Lemma apply_ids_errors (p : string) (sb : stat_t) (u g : Z) (s : state) :
  let s' := snd (apply_ids E p sb u g s) in
  g_errors s' = g_errors s \/ g_errors s' = to_u64 (g_errors s + 1).
Proof.
  unfold apply_ids.
  pose proof (lchown_same_run p u g s) as H1.
  destruct (lchown E p u g s) as [r s1]. simpl in H1.
  assert (He1 : g_errors s1 = g_errors s) by apply H1.
  destruct (r =? -1); [right; simpl; rewrite He1; reflexivity|].
  left. simpl.
  destruct (negb (S_ISLNK (st_mode sb))); [|exact He1].
  pose proof (chmod_same_run p (st_mode sb) s1) as H2.
  set (s2 := snd (chmod E p (st_mode sb) s1)) in *.
  pose proof (shift_acl_same_run p ACL_TYPE_ACCESS (g_offset s2) s2) as H3.
  set (s3 := snd (shift_acl E p ACL_TYPE_ACCESS (g_offset s2) s2)) in *.
  pose proof (shift_acl_same_run p ACL_TYPE_DEFAULT (g_offset s3) s3) as H4.
  assert (He2 : g_errors s2 = g_errors s1) by apply H2.
  assert (He3 : g_errors s3 = g_errors s2) by apply H3.
  destruct (S_ISDIR (st_mode sb)).
  - assert (He4 : g_errors (snd (shift_acl E p ACL_TYPE_DEFAULT (g_offset s3) s3))
                  = g_errors s3) by apply H4.
    congruence.
  - congruence.
Qed.

(** The object converter issues each kind of mutation at most once, and on
    the path it was called with. *)
Lemma apply_ids_count (p : string) (sb : stat_t) (u g : Z) (s : state)
    (l : gmap string key) (k : key) (m : mutation) :
  (mutation_count l k m (trace (snd (apply_ids E p sb u g s)))
   <= mutation_count l k m (trace s)
      + (if bool_decide (l !! p = Some k) then 1 else 0))%nat.
Proof.
  unfold apply_ids.
  pose proof (lchown_trace p u g s) as H1.
  destruct (lchown E p u g s) as [r s1]. simpl in H1.
  assert (Hown : (mutation_count l k m (trace s1)
                  <= mutation_count l k m (trace s)
                     + (if bool_decide (l !! p = Some k)
                        then (match m with MOwner => 1 | _ => 0 end) else 0))%nat).
  { rewrite H1. simpl. destruct m; simpl;
      destruct (bool_decide (l !! p = Some k)); lia. }
  destruct (r =? -1).
  { simpl. destruct (bool_decide (l !! p = Some k)); destruct m; lia. }
  destruct (negb (S_ISLNK (st_mode sb))).
  2:{ simpl. destruct (bool_decide (l !! p = Some k)); destruct m; lia. }
  pose proof (chmod_trace p (st_mode sb) s1) as H2.
  set (s2 := snd (chmod E p (st_mode sb) s1)) in *.
  pose proof (shift_acl_trace p ACL_TYPE_ACCESS (g_offset s2) s2) as H3.
  set (s3 := snd (shift_acl E p ACL_TYPE_ACCESS (g_offset s2) s2)) in *.
  pose proof (shift_acl_trace p ACL_TYPE_DEFAULT (g_offset s3) s3) as H4.
  set (s4 := snd (shift_acl E p ACL_TYPE_DEFAULT (g_offset s3) s3)) in *.
  destruct (S_ISDIR (st_mode sb)); simpl.
  - destruct H3 as [H3|[a3 H3]], H4 as [H4|[a4 H4]];
      rewrite H4, H3, H2; simpl;
      destruct (bool_decide (l !! p = Some k)); destruct m as [| |[|]];
      simpl in *; lia.
  - destruct H3 as [H3|[a3 H3]];
      rewrite H3, H2; simpl;
      destruct (bool_decide (l !! p = Some k)); destruct m as [| |[|]];
      simpl in *; lia.
Qed.

(** What [process_file] does with an object it has not seen, by the two
    results of the identity transform. *)
Lemma process_file_fresh (p : string) (s : state) (sb : stat_t) :
  lstat s p = Some sb ->
  inode_seen (st_dev sb) (st_ino sb) s = false ->
  let s1 := inode_mark_seen E (st_dev sb) (st_ino sb) s in
  process_file E p s =
    match shift_id (g_offset s) (st_uid sb), shift_id (g_offset s) (st_gid sb) with
    | Some new_uid, Some new_gid => apply_ids E p sb new_uid new_gid s1
    | _, _ => (1, incr_errors s1)
    end.
Proof.
  intros Hst Hseen s1. unfold process_file. rewrite Hst, Hseen.
  fold s1. destruct (mark_seen_fields (st_dev sb) (st_ino sb) s) as (Ho&_).
  fold s1 in Ho. rewrite Ho. reflexivity.
Qed.

(** A later visit of a marked pair changes nothing at all. *)
Lemma process_file_seen (p : string) (s : state) (sb : stat_t) :
  lstat s p = Some sb ->
  inode_seen (st_dev sb) (st_ino sb) s = true ->
  process_file E p s = (0, s).
Proof. intros Hst Hseen. unfold process_file. rewrite Hst, Hseen. reflexivity. Qed.

Lemma process_file_links (p : string) (s : state) :
  links (snd (process_file E p s)) = links s.
Proof.
  unfold process_file. destruct (lstat s p) as [sb|]; [|reflexivity].
  destruct (inode_seen _ _ s); [reflexivity|].
  destruct (mark_seen_fields (st_dev sb) (st_ino sb) s) as (_&_&_&Hl&_).
  destruct (shift_id _ (st_uid sb)) as [u|]; [|exact Hl].
  destruct (shift_id _ (st_gid sb)) as [g|]; [|exact Hl].
  destruct (apply_ids_frame p sb u g (inode_mark_seen E (st_dev sb) (st_ino sb) s))
    as (_ & Hl' & _). rewrite Hl'. exact Hl.
Qed.

Lemma process_file_files (p : string) (s : state) :
  files (snd (process_file E p s)) = files s.
Proof.
  unfold process_file. destruct (lstat s p) as [sb|]; [|reflexivity].
  destruct (inode_seen _ _ s); [reflexivity|].
  destruct (mark_seen_fields (st_dev sb) (st_ino sb) s) as (_&_&_&_&_&Hf&_).
  destruct (shift_id _ (st_uid sb)) as [u|]; [|exact Hf].
  destruct (shift_id _ (st_gid sb)) as [g|]; [|exact Hf].
  destruct (apply_ids_frame p sb u g (inode_mark_seen E (st_dev sb) (st_ino sb) s))
    as (_ & _ & _ & Hf' & _). rewrite Hf'. exact Hf.
Qed.

Lemma process_file_offset (p : string) (s : state) :
  g_offset (snd (process_file E p s)) = g_offset s.
Proof.
  unfold process_file. destruct (lstat s p) as [sb|]; [|reflexivity].
  destruct (inode_seen _ _ s); [reflexivity|].
  destruct (mark_seen_fields (st_dev sb) (st_ino sb) s) as (Ho&_).
  destruct (shift_id _ (st_uid sb)) as [u|]; [|exact Ho].
  destruct (shift_id _ (st_gid sb)) as [g|]; [|exact Ho].
  destruct (apply_ids_frame p sb u g (inode_mark_seen E (st_dev sb) (st_ino sb) s))
    as (_ & _ & _ & _ & Ho'). rewrite Ho'. exact Ho.
Qed.

Lemma process_file_extends (p : string) (s : state) :
  extends s (snd (process_file E p s)).
Proof.
  unfold process_file. destruct (lstat s p) as [sb|]; [|exists []; reflexivity].
  destruct (inode_seen _ _ s); [apply extends_refl|].
  destruct (mark_seen_fields (st_dev sb) (st_ino sb) s) as (_&_&_&_&_&_&Ht&_).
  set (s1 := inode_mark_seen E (st_dev sb) (st_ino sb) s) in *.
  assert (H01 : extends s s1) by (exists []; exact Ht).
  destruct (shift_id _ (st_uid sb)) as [u|]; [|exists []; exact Ht].
  destruct (shift_id _ (st_gid sb)) as [g|]; [|exists []; exact Ht].
  eapply extends_trans; [exact H01|].
  eapply extends_trans; [|apply apply_ids_extends].
  exists [EvLchown p u g]. apply lchown_trace.
Qed.

(** [process_file] returns 0 or 1, adds at most one error, and adds one
    when it returns 1. *)
Lemma process_file_errors (p : string) (s : state) :
  let r := process_file E p s in
  (fst r = 0 /\ (g_errors (snd r) = g_errors s
                 \/ g_errors (snd r) = to_u64 (g_errors s + 1)))
  \/ (fst r = 1 /\ g_errors (snd r) = to_u64 (g_errors s + 1)).
Proof.
  unfold process_file. destruct (lstat s p) as [sb|].
  2:{ left. split; [reflexivity|right; reflexivity]. }
  destruct (inode_seen _ _ s). { left. split; [reflexivity|left; reflexivity]. }
  destruct (mark_seen_fields (st_dev sb) (st_ino sb) s) as (_ & _ & He & _).
  set (s1 := inode_mark_seen E (st_dev sb) (st_ino sb) s) in *.
  destruct (shift_id _ (st_uid sb)) as [u|].
  2:{ right. simpl. rewrite He. split; reflexivity. }
  destruct (shift_id _ (st_gid sb)) as [g|].
  2:{ right. simpl. rewrite He. split; reflexivity. }
  left. split; [apply apply_ids_continues|].
  rewrite <- He. apply apply_ids_errors.
Qed.



(** ** Invariants of the walk and of the driver *)

Lemma nftw_entries_inv (P : state -> Prop) (fn : string -> state -> Z * state) :
  (forall e s, P s -> P (snd (fn e s))) ->
  forall (entries : list string) (fa : option nat) (s : state),
    P s -> P (snd (nftw_entries fn entries fa s)).
Proof.
  intros Hfn. induction entries as [|e rest IH]; intros fa s Hs.
  - simpl. destruct fa as [[|n]|]; exact Hs.
  - simpl. destruct fa as [[|n]|]; [exact Hs| |].
    + specialize (Hfn e s Hs). destruct (fn e s) as [r s1]. simpl in Hfn.
      destruct (r =? 0); [apply IH; exact Hfn|exact Hfn].
    + specialize (Hfn e s Hs). destruct (fn e s) as [r s1]. simpl in Hfn.
      destruct (r =? 0); [apply IH; exact Hfn|exact Hfn].
Qed.

(** A walk that returns 0 has handed every entry to the callback. *)
Lemma nftw_entries_complete (fn : string -> state -> Z * state) :
  forall (entries : list string) (fa : option nat) (s : state),
    fst (nftw_entries fn entries fa s) = 0 ->
    snd (nftw_entries fn entries fa s)
    = fold_left (fun s' e => snd (fn e s')) entries s.
Proof.
  induction entries as [|e rest IH]; intros fa s H.
  - simpl in *. destruct fa as [[|n]|]; reflexivity.
  - simpl in *. destruct fa as [[|n]|]; [discriminate| |];
      destruct (fn e s) as [r s1]; simpl;
      (destruct (Z.eqb_spec r 0) as [->|Hne];
       [apply IH; exact H|simpl in H; contradiction]).
Qed.

Lemma nftw_entries_stop (fn : string -> state -> Z * state) :
  forall (pre : list string) (e : string) (rest : list string) (fa : option nat)
         (s s1 s2 : state) (r : Z),
    nftw_entries fn pre fa s = (0, s1) ->
    fn e s1 = (r, s2) ->
    r <> 0 ->
    nftw_entries fn (pre ++ e :: rest) fa s = (r, s2).
Proof.
  induction pre as [|x pre IH]; intros e rest fa s s1 s2 r Hpre Hfn Hr.
  - simpl in *. destruct fa as [[|n]|]; [discriminate| |];
      inversion Hpre; subst; rewrite Hfn;
      destruct (Z.eqb_spec r 0); try contradiction; reflexivity.
  - simpl in *. destruct fa as [[|n]|]; [discriminate| |];
      destruct (fn x s) as [rx sx];
      (destruct (Z.eqb_spec rx 0) as [->|Hne];
       [eapply IH; eassumption|inversion Hpre; contradiction]).
Qed.

(** An invariant of the callback that ignores the counters and the log
    lines is an invariant of [convert_path]. *)
Lemma convert_path_inv (P : state -> Prop) (path : string) (offset : Z) :
  (forall e s, P s -> P (snd (process_file E e s))) ->
  (forall ev s, mutates (links s) = mutates (links (log ev s)) ->
                (forall l k m, mutates l k m ev = false) -> P s -> P (log ev s)) ->
  (forall o n e s, P s -> P (set_globals o n e s)) ->
  forall s, P s -> P (snd (convert_path E path offset s)).
Proof.
  intros Hfn Hlog Hglob s Hs. unfold convert_path.
  assert (H0 : P (log (EvConverting path) s)).
  { apply Hlog; [reflexivity|reflexivity|exact Hs]. }
  destruct (stat _ path) as [sb|]; [|exact H0].
  destruct (negb (S_ISDIR (st_mode sb))); [exact H0|].
  pose proof (nftw_entries_inv P (process_file E) Hfn
                (preorder (nftw_tree E path)) (nftw_fails_after E path)
                (set_globals offset 0 0 (log (EvConverting path) s))
                (Hglob _ _ _ _ H0)) as Hw.
  unfold nftw. destruct (nftw_entries _ _ _ _) as [r s2]. simpl in Hw.
  destruct (r =? -1); [exact Hw|].
  simpl. apply Hlog; [reflexivity|reflexivity|exact Hw].
Qed.

Lemma convert_paths_inv (P : state -> Prop) (offset : Z) :
  (forall e s, P s -> P (snd (process_file E e s))) ->
  (forall ev s, mutates (links s) = mutates (links (log ev s)) ->
                (forall l k m, mutates l k m ev = false) -> P s -> P (log ev s)) ->
  (forall o n e s, P s -> P (set_globals o n e s)) ->
  forall (paths : list string) (overall : Z) (s : state),
    P s -> P (snd (convert_paths E paths offset overall s)).
Proof.
  intros Hfn Hlog Hglob. induction paths as [|p rest IH]; intros overall s Hs.
  - exact Hs.
  - simpl. pose proof (convert_path_inv P p offset Hfn Hlog Hglob s Hs) as H1.
    destruct (convert_path E p offset s) as [r s1]. simpl in H1.
    destruct (r =? -1).
    + apply IH. apply Hlog; [reflexivity|reflexivity|exact H1].
    + apply IH. exact H1.
Qed.

Lemma convert_paths_links (offset : Z) (paths : list string)
    (overall : Z) (s : state) :
  links (snd (convert_paths E paths offset overall s)) = links s.
Proof.
  apply (convert_paths_inv (fun s' => links s' = links s)).
  - intros e s' H. rewrite process_file_links. exact H.
  - intros ev s' _ _ H. exact H.
  - intros o n e s' H. exact H.
  - reflexivity.
Qed.

Lemma convert_paths_files (offset : Z) (paths : list string)
    (overall : Z) (s : state) :
  files (snd (convert_paths E paths offset overall s)) = files s.
Proof.
  apply (convert_paths_inv (fun s' => files s' = files s)).
  - intros e s' H. rewrite process_file_files. exact H.
  - intros ev s' _ _ H. exact H.
  - intros o n e s' H. exact H.
  - reflexivity.
Qed.

Lemma convert_paths_extends (offset : Z) (paths : list string)
    (overall : Z) (s : state) :
  extends s (snd (convert_paths E paths offset overall s)).
Proof.
  apply (convert_paths_inv (fun s' => extends s s')).
  - intros e s' H. eapply extends_trans; [exact H|apply process_file_extends].
  - intros ev s' _ _ H. eapply extends_trans; [exact H|apply extends_log].
  - intros o n e s' H. exact H.
  - apply extends_refl.
Qed.

Lemma convert_paths_app (offset : Z) :
  forall (a b : list string) (overall : Z) (s : state),
    convert_paths E (a ++ b) offset overall s
    = convert_paths E b offset (fst (convert_paths E a offset overall s))
        (snd (convert_paths E a offset overall s)).
Proof.
  induction a as [|p a IH]; intros b overall s; [reflexivity|].
  simpl. destruct (convert_path E p offset s) as [r s1].
  destruct (r =? -1); apply IH.
Qed.

Lemma convert_paths_failed (offset : Z) :
  forall (paths : list string) (s : state), fst (convert_paths E paths offset 1 s) = 1.
Proof.
  induction paths as [|p rest IH]; intros s; [reflexivity|].
  simpl. destruct (convert_path E p offset s) as [r s1].
  destruct (r =? -1); apply IH.
Qed.

(** ** At most one mutation per inode *)

Lemma process_file_dedup (p : string) (s : state) :
  (forall n, malloc_fails E n = false) ->
  dedup_inv s -> dedup_inv (snd (process_file E p s)).
Proof.
  intros Hm Hinv.
  pose proof (process_file_links p s) as Hlinks.
  unfold process_file in *. destruct (lstat s p) as [sb|] eqn:Hst; [|exact Hinv].
  destruct (inode_seen (st_dev sb) (st_ino sb) s) eqn:Hseen; [exact Hinv|].
  pose proof (lstat_key s p sb Hst) as Hk.
  destruct (mark_seen_fields (st_dev sb) (st_ino sb) s)
    as (_ & _ & _ & Hl & _ & _ & Ht & _).
  pose proof (inode_seen_mark_same (st_dev sb) (st_ino sb) s (Hm _)) as Hnow.
  set (s1 := inode_mark_seen E (st_dev sb) (st_ino sb) s) in *.
  assert (Hfresh : forall m, mutation_count (links s) (st_dev sb, st_ino sb) m (trace s) = O).
  { intros m. destruct (Hinv (st_dev sb, st_ino sb) m) as [_ H].
    destruct (mutation_count _ _ m (trace s)); [reflexivity|].
    simpl in H. rewrite H in Hseen by lia. discriminate. }
  assert (Hother : forall k m,
             (0 < mutation_count (links s) k m (trace s))%nat ->
             inode_seen (fst k) (snd k) s1 = true).
  { intros k m H. apply inode_seen_mark_mono. apply (Hinv k m). exact H. }
  destruct (shift_id _ (st_uid sb)) as [u|].
  2:{ intros k m. simpl. rewrite Hl, Ht. split; [apply Hinv|apply Hother]. }
  destruct (shift_id _ (st_gid sb)) as [g|].
  2:{ intros k m. simpl. rewrite Hl, Ht. split; [apply Hinv|apply Hother]. }
  intros k m. rewrite Hlinks.
  pose proof (apply_ids_count p sb u g s1 (links s) k m) as Hc.
  destruct (apply_ids_frame p sb u g s1) as (Htab & _).
  rewrite Ht in Hc.
  assert (Hseen' : forall d i, inode_seen d i (snd (apply_ids E p sb u g s1))
                               = inode_seen d i s1).
  { intros d i. unfold inode_seen. rewrite Htab. reflexivity. }
  rewrite Hseen'.
  destruct (bool_decide_reflect (links s !! p = Some k)) as [Hpk|Hpk].
  - assert (k = (st_dev sb, st_ino sb)) as -> by congruence.
    rewrite Hfresh in Hc. split; [lia|]. intros _. exact Hnow.
  - split; [destruct (Hinv k m); lia|].
    intros H. apply (Hother k m). lia.
Qed.

Lemma convert_paths_dedup (offset : Z) (paths : list string)
    (overall : Z) (s : state) :
  (forall n, malloc_fails E n = false) ->
  dedup_inv s -> dedup_inv (snd (convert_paths E paths offset overall s)).
Proof.
  intros Hm. apply convert_paths_inv.
  - intros e s' H. apply process_file_dedup; assumption.
  - intros ev s' _ Hev H k m. simpl. rewrite Hev. apply (H k m).
  - intros o n e s' H k m. apply (H k m).
Qed.

(** C4, as the code has it.  In a run in which no allocation of a hash
    table entry fails: every kind of mutation (owner, mode, either ACL) is
    applied at most once to every (device, inode) pair, over all paths of
    the run and whatever the number of directory entries of the inode; the
    pair is in the hash table when [process_file] starts to mutate the
    object; and [process_file] on a pair that is in the table changes
    nothing. *)
Theorem mutation_at_most_once (paths : list string) (offset : Z) (s0 : state) :
  (forall n, malloc_fails E n = false) ->
  inode_table s0 = ∅ ->
  trace s0 = [] ->
  (forall (k : key) (m : mutation),
     (mutation_count (links s0) k m
        (trace (snd (convert_paths E paths offset 0 s0))) <= 1)%nat)
  /\ (forall (p : string) (s : state) (sb : stat_t),
        lstat s p = Some sb ->
        inode_seen (st_dev sb) (st_ino sb) s = false ->
        let s1 := inode_mark_seen E (st_dev sb) (st_ino sb) s in
        inode_seen (st_dev sb) (st_ino sb) s1 = true
        /\ (process_file E p s = (1, incr_errors s1)
            \/ exists u g : Z, process_file E p s = apply_ids E p sb u g s1))
  /\ (forall (p : string) (s : state) (sb : stat_t),
        lstat s p = Some sb ->
        inode_seen (st_dev sb) (st_ino sb) s = true ->
        process_file E p s = (0, s)).
Proof.
  intros Hm Htab Htr. split; [|split].
  - intros k m.
    assert (Hinit : dedup_inv s0).
    { intros k' m'. rewrite Htr. simpl. split; [lia|lia]. }
    pose proof (convert_paths_dedup offset paths 0 s0 Hm Hinit k m) as [H _].
    rewrite convert_paths_links in H. exact H.
  - intros p s sb Hst Hseen s1. split.
    + apply inode_seen_mark_same. apply Hm.
    + rewrite (process_file_fresh p s sb Hst Hseen). fold s1.
      destruct (shift_id (g_offset s) (st_uid sb)) as [u|]; [|left; reflexivity].
      destruct (shift_id (g_offset s) (st_gid sb)) as [g|]; [|left; reflexivity].
      right. exists u, g. reflexivity.
  - intros p s sb. apply process_file_seen.
Qed.

(** ** Error accounting *)

(** The walk returns 0, 1 or -1; while the counter cannot wrap it counts
    at most one error per entry, and at least one when the walk was
    stopped. *)
Lemma nftw_entries_errors :
  forall (entries : list string) (fa : option nat) (s : state),
  0 <= g_errors s ->
  g_errors s + Z.of_nat (length entries) < 2 ^ 64 ->
  let r := nftw_entries (process_file E) entries fa s in
  g_errors s <= g_errors (snd r) <= g_errors s + Z.of_nat (length entries)
  /\ (fst r = 0 \/ fst r = -1 \/ (fst r = 1 /\ g_errors s < g_errors (snd r))).
Proof.
  induction entries as [|e rest IH]; intros fa s H0 Hlen.
  - simpl. destruct fa as [[|n]|]; simpl; (split; [lia|]); auto.
  - simpl length in Hlen. rewrite Nat2Z.inj_succ in Hlen.
    assert (Hstep : nftw_entries (process_file E) (e :: rest) fa s = (-1, s)
              \/ exists fa', nftw_entries (process_file E) (e :: rest) fa s
                 = (let '(r, s1) := process_file E e s in
                    if r =? 0 then nftw_entries (process_file E) rest fa' s1
                    else (r, s1))).
    { simpl. destruct fa as [[|n]|]; [left; reflexivity| |];
        right; eexists; reflexivity. }
    simpl length. rewrite Nat2Z.inj_succ.
    destruct Hstep as [Hstep|[fa' Hstep]]; rewrite Hstep; clear Hstep.
    { simpl. split; [lia|]. auto. }
    pose proof (process_file_errors e s) as Hpf.
    destruct (process_file E e s) as [r s1]. simpl in Hpf.
    assert (Hu : to_u64 (g_errors s + 1) = g_errors s + 1)
      by (apply to_u64_small; lia).
    destruct Hpf as [[-> Herr]|[-> Herr]]; simpl.
    + assert (Hs1 : g_errors s <= g_errors s1 <= g_errors s + 1) by lia.
      destruct (IH fa' s1 ltac:(lia) ltac:(lia)) as [Hb Hr].
      split; [lia|].
      destruct Hr as [Hr|[Hr|[Hr Hlt]]]; auto.
      right; right. split; [exact Hr|lia].
    + split; [lia|]. right; right. split; [reflexivity|lia].
Qed.

Lemma convert_path_result (path : string) (offset : Z) (s : state) :
  fst (convert_path E path offset s) = 0 \/ fst (convert_path E path offset s) = -1.
Proof.
  unfold convert_path.
  destruct (stat _ path) as [sb|]; [|right; reflexivity].
  destruct (negb (S_ISDIR (st_mode sb))); [right; reflexivity|].
  destruct (nftw _ _ _ _) as [r s2].
  destruct (r =? -1); [right; reflexivity|]. simpl.
  destruct (0 <? g_errors s2); [right|left]; reflexivity.
Qed.

Lemma convert_path_zero (path : string) (offset : Z) (s : state) :
  Z.of_nat (length (preorder (nftw_tree E path))) < 2 ^ 64 - 1 ->
  fst (convert_path E path offset s) = 0 ->
  walk_clean E path offset s.
Proof.
  intros Hlen. unfold convert_path, walk_clean.
  destruct (stat _ path) as [sb|]; [|simpl; lia].
  destruct (S_ISDIR (st_mode sb)) eqn:Hdir; [|simpl; lia].
  simpl negb. cbv iota. unfold nftw.
  pose proof (nftw_entries_errors (preorder (nftw_tree E path))
                (nftw_fails_after E path)
                (set_globals offset 0 0 (log (EvConverting path) s))) as Herr.
  simpl g_errors in Herr at 1 2. specialize (Herr ltac:(lia) ltac:(lia)).
  destruct (nftw_entries _ _ _ _) as [r s2]. simpl in Herr.
  destruct Herr as [Hb Hr].
  destruct (Z.eqb_spec r (-1)) as [->|Hne]; [simpl; lia|].
  simpl. destruct (Z.ltb_spec 0 (g_errors s2)) as [Hpos|Hz]; [lia|].
  intros _. exists sb.
  split; [reflexivity|]. split; [exact Hdir|]. split; [|lia].
  destruct Hr as [Hr|[Hr|[Hr Hlt]]]; [exact Hr|contradiction|lia].
Qed.

Lemma walk_clean_zero (path : string) (offset : Z) (s : state) :
  walk_clean E path offset s -> fst (convert_path E path offset s) = 0.
Proof.
  intros (sb & Hst & Hdir & Hr & He). unfold convert_path.
  rewrite Hst, Hdir. simpl negb. cbv iota.
  destruct (nftw _ _ _ _) as [r s2]. simpl in Hr, He. subst r. simpl.
  rewrite He. reflexivity.
Qed.

(** [overall_result] stays as it was when every walk is clean, and is 1
    otherwise. *)
Lemma convert_paths_overall (offset : Z) :
  forall (paths : list string) (overall : Z) (s : state),
    countable_trees E paths ->
    (all_clean E offset paths s
     /\ fst (convert_paths E paths offset overall s) = overall)
    \/ (~ all_clean E offset paths s
        /\ fst (convert_paths E paths offset overall s) = 1).
Proof.
  induction paths as [|p rest IH]; intros overall s Hc.
  - left. split; [exact I|reflexivity].
  - inversion Hc as [|? ? Hp Hrest]; subst. simpl.
    pose proof (convert_path_result p offset s) as Hres.
    pose proof (convert_path_zero p offset s Hp) as Hzero.
    pose proof (walk_clean_zero p offset s) as Hclean.
    destruct (convert_path E p offset s) as [r s1]. simpl in *.
    destruct Hres as [->| ->]; simpl.
    + destruct (IH overall s1 Hrest) as [[Ha Hf]|[Ha Hf]].
      * left. split; [split; [apply Hzero; reflexivity|exact Ha]|exact Hf].
      * right. split; [|exact Hf]. intros [_ H]. contradiction.
    + right. split.
      * intros [H _]. specialize (Hclean H). discriminate.
      * destruct (IH 1 (log (EvErrorConverting p) s1) Hrest) as [[_ Hf]|[_ Hf]];
          exact Hf.
Qed.

(** ** The driver *)

Lemma convert_path_announced (path : string) (offset : Z) (s : state) :
  In (EvConverting path) (trace (snd (convert_path E path offset s))).
Proof.
  unfold convert_path.
  destruct (stat _ path) as [sb|]; [|left; reflexivity].
  destruct (negb (S_ISDIR (st_mode sb))); [left; reflexivity|].
  pose proof (nftw_entries_inv
                (fun s' => In (EvConverting path) (trace s')) (process_file E)) as Hw.
  specialize (Hw (fun e s' H => extends_in _ _ _ (process_file_extends e s') H)
                 (preorder (nftw_tree E path)) (nftw_fails_after E path)
                 (set_globals offset 0 0 (log (EvConverting path) s))
                 (or_introl eq_refl)).
  unfold nftw. destruct (nftw_entries _ _ _ _) as [r s2]. simpl in Hw.
  destruct (r =? -1); [exact Hw|]. simpl. right. exact Hw.
Qed.

(** Every path of the run is attempted. *)
Lemma convert_paths_attempts_all (offset : Z) :
  forall (paths : list string) (overall : Z) (s : state) (p : string),
    In p paths -> In (EvConverting p) (trace (snd (convert_paths E paths offset overall s))).
Proof.
  induction paths as [|q rest IH]; intros overall s p Hin; [contradiction|].
  simpl. pose proof (convert_path_announced q offset s) as Hq.
  destruct (convert_path E q offset s) as [r s1]. simpl in Hq.
  destruct Hin as [->|Hin].
  - destruct (r =? -1).
    + eapply extends_in; [apply convert_paths_extends|]. right. exact Hq.
    + eapply extends_in; [apply convert_paths_extends|]. exact Hq.
  - destruct (r =? -1); apply IH; exact Hin.
Qed.

Lemma update_config_trace (cfg : string) (v : Z) (s : state) :
  trace (snd (update_config E cfg v s)) = trace s.
Proof.
  unfold update_config.
  destruct (_ <? strlen cfg); [reflexivity|].
  destruct (fopen_read_fails E cfg); [reflexivity|].
  destruct (files s !! cfg); [|reflexivity].
  destruct (fopen_write_fails E _); [reflexivity|].
  destruct (rename_fails E _); reflexivity.
Qed.

(** What a successful [update_config] leaves in the files. *)
Lemma update_config_writes (cfg content : string) (v : Z) (s : state) :
  strlen cfg <= MAX_PATH_LEN - 5 ->
  fopen_read_fails E cfg = false ->
  files s !! cfg = Some content ->
  fopen_write_fails E (snprintf (MAX_PATH_LEN + 8) (cfg ++ ".tmp")) = false ->
  rename_fails E (snprintf (MAX_PATH_LEN + 8) (cfg ++ ".tmp")) = false ->
  update_config E cfg v s
  = (0, set_files (<[cfg := patch_config content v]>
                     (delete (snprintf (MAX_PATH_LEN + 8) (cfg ++ ".tmp")) (files s))) s).
Proof.
  intros Hlen Hr Hf Hw Hn. unfold update_config.
  destruct (Z.ltb_spec (MAX_PATH_LEN - 5) (strlen cfg)); [lia|].
  rewrite Hr, Hf, Hw, Hn. reflexivity.
Qed.

(** C1.  In the run over [paths]: every path is attempted; the files (the
    configuration among them) differ from what they were only if the walk
    of every path completed with no error counted; if some walk did not,
    the exit status is 1 and the run ends where the conversions ended,
    [update_config] not being called, with every file as it was; and if
    every walk did, [update_config] is called on the state the conversions
    left. *)
Theorem commit_all_or_nothing (config_path : string) (paths : list string)
    (target_unprivileged offset : Z) (s : state) :
  countable_trees E paths ->
  let r := convert_and_commit E config_path paths target_unprivileged offset s in
  let s1 := snd (convert_paths E paths offset 0 s) in
  (forall p, In p paths -> In (EvConverting p) (trace (snd r)))
  /\ (files (snd r) <> files s -> all_clean E offset paths s)
  /\ (~ all_clean E offset paths s ->
      fst r = 1 /\ snd r = free_inode_table s1 /\ files (snd r) = files s)
  /\ (all_clean E offset paths s ->
      snd r = free_inode_table
                (snd (update_config E config_path target_unprivileged s1))).
Proof.
  intros Hc r s1. subst r s1. unfold convert_and_commit.
  pose proof (convert_paths_overall offset paths 0 s Hc) as Hov.
  pose proof (convert_paths_files offset paths 0 s) as Hfiles.
  pose proof (convert_paths_attempts_all offset paths 0 s) as Hall.
  destruct (convert_paths E paths offset 0 s) as [overall s1]. simpl in *.
  destruct Hov as [[Hclean ->]|[Hdirty ->]]; simpl.
  - pose proof (update_config_trace config_path target_unprivileged s1) as Htr.
    destruct (update_config E config_path target_unprivileged s1) as [r2 s2].
    simpl in Htr. split; [|split; [|split]].
    + intros p Hin. destruct (r2 =? -1); simpl; rewrite Htr; apply Hall; exact Hin.
    + intros _. exact Hclean.
    + intros H. contradiction.
    + intros _. destruct (r2 =? -1); reflexivity.
  - split; [|split; [|split]].
    + exact Hall.
    + intros H. contradiction.
    + intros _. repeat split. exact Hfiles.
    + intros H. contradiction.
Qed.

(** ** A bounds violation stops the walk *)

(** The part of C3 that the code keeps: in a run over
    [paths1 ++ root :: paths2] with an offset that is not negative, let the
    walk of [root] reach the entry [p], every earlier entry having been
    accepted, and let [p] be an object that [process_file] converts (its
    [lstat] succeeds, its inode was not seen) whose [new_uid] or [new_gid],
    as computed in [uid_t], exceeds [MAX_UID_GID].  Then [process_file]
    fails on [p] with the error counted and nothing changed; [nftw] returns
    at once with that state, so no entry after [p] is visited;
    [convert_path] returns -1; and the run exits with status 1 and every
    file, the configuration among them, as it was. *)
Lemma overflow_stops_walk (config_path root p : string)
    (paths1 paths2 pre post : list string) (target_unprivileged offset : Z)
    (s s_p : state) (sb_root sb : stat_t) :
  let s1 := snd (convert_paths E paths1 offset 0 s) in
  let s_walk := set_globals offset 0 0 (log (EvConverting root) s1) in
  let s_err := incr_errors (inode_mark_seen E (st_dev sb) (st_ino sb) s_p) in
  stat (log (EvConverting root) s1) root = Some sb_root ->
  S_ISDIR (st_mode sb_root) = true ->
  preorder (nftw_tree E root) = pre ++ p :: post ->
  nftw_entries (process_file E) pre (nftw_fails_after E root) s_walk = (0, s_p) ->
  Z.of_nat (length pre) < 2 ^ 64 - 1 ->
  lstat s_p p = Some sb ->
  inode_seen (st_dev sb) (st_ino sb) s_p = false ->
  0 <= offset < 2 ^ 31 ->
  MAX_UID_GID < to_uid (st_uid sb + offset) \/ MAX_UID_GID < to_uid (st_gid sb + offset) ->
  process_file E p s_p = (1, s_err)
  /\ inodes s_err = inodes s_p /\ trace s_err = trace s_p
  /\ nftw E root (process_file E) s_walk = (1, s_err)
  /\ fst (convert_path E root offset s1) = -1
  /\ (let r := convert_and_commit E config_path (paths1 ++ root :: paths2)
                 target_unprivileged offset s in
      fst r = 1 /\ files (snd r) = files s).
Proof.
  intros s1 s_walk s_err Hroot Hdir Htree Hpre Hlen Hst Hseen Hoff Hover.
  assert (Hgo : g_offset s_p = offset).
  { pose proof (nftw_entries_inv (fun s' => g_offset s' = offset) (process_file E)
                  (fun e s' H => eq_trans (process_file_offset e s') H)
                  pre (nftw_fails_after E root) s_walk eq_refl) as H.
    rewrite Hpre in H. exact H. }
  assert (Hge : 0 <= g_errors s_p <= Z.of_nat (length pre)).
  { pose proof (nftw_entries_errors pre (nftw_fails_after E root) s_walk) as H.
    simpl g_errors in H at 1 2. specialize (H ltac:(lia) ltac:(lia)).
    rewrite Hpre in H. simpl in H. lia. }
  assert (Hpf : process_file E p s_p = (1, s_err)).
  { rewrite (process_file_fresh p s_p sb Hst Hseen). rewrite Hgo.
    destruct Hover as [H|H].
    - rewrite (shift_id_none_up offset (st_uid sb) Hoff H). reflexivity.
    - rewrite (shift_id_none_up offset (st_gid sb) Hoff H).
      destruct (shift_id offset (st_uid sb)); reflexivity. }
  destruct (mark_seen_fields (st_dev sb) (st_ino sb) s_p)
    as (_ & _ & He & _ & Hi & _ & Ht & _).
  assert (Hnftw : nftw E root (process_file E) s_walk = (1, s_err)).
  { unfold nftw. rewrite Htree.
    apply (nftw_entries_stop (process_file E) pre p post _ s_walk s_p s_err 1 Hpre Hpf).
    lia. }
  assert (Hcp : fst (convert_path E root offset s1) = -1).
  { unfold convert_path. rewrite Hroot, Hdir. simpl negb. cbv iota.
    fold s_walk. rewrite Hnftw. simpl.
    rewrite He, to_u64_small by lia.
    destruct (Z.ltb_spec 0 (g_errors s_p + 1)); [reflexivity|lia]. }
  split; [exact Hpf|]. split; [exact Hi|]. split; [exact Ht|].
  split; [exact Hnftw|]. split; [exact Hcp|].
  assert (Hov : fst (convert_paths E (paths1 ++ root :: paths2) offset 0 s) = 1).
  { rewrite convert_paths_app. fold s1. simpl.
    destruct (convert_path E root offset s1) as [rr s2]. simpl in Hcp. subst rr.
    simpl. apply convert_paths_failed. }
  pose proof (convert_paths_files offset (paths1 ++ root :: paths2) 0 s) as Hfs.
  unfold convert_and_commit.
  destruct (convert_paths E (paths1 ++ root :: paths2) offset 0 s) as [ov s3].
  simpl in Hov, Hfs. subst ov. simpl. split; [reflexivity|exact Hfs].
Qed.

(** ** A container already in the target state *)

(** C10, as the code has it.  When the configuration read records the
    state that is asked for, [main] leaves the whole state as it was: no
    owner, mode or ACL is changed and no file is written, whatever the exit
    status.  The exit status is 0 when, besides, the container number is
    positive, the container is not running and the configuration names at
    least one file system. *)
Theorem main_already_in_target_state (prog arg1 arg2 : string)
    (s : state) (target offset : Z) (paths : list string) :
  parse_mode arg2 = Some (target, offset) ->
  read_config E (config_path_of (atoi arg1)) s = Some (paths, target) ->
  snd (main E [prog; arg1; arg2] s) = s
  /\ (0 < atoi arg1 ->
      is_container_running E (atoi arg1) = false ->
      paths <> [] ->
      main E [prog; arg1; arg2] s = (0, s)).
Proof.
  intros Hmode Hread.
  pose proof (parse_mode_target arg2 target offset Hmode) as Htarget.
  assert (Hcheck : negb (target =? -1) && (target =? target) = true).
  { rewrite Z.eqb_refl. destruct Htarget as [-> | ->]; reflexivity. }
  unfold main. rewrite Hmode. split.
  - destruct (atoi arg1 <=? 0); [reflexivity|].
    destruct (is_container_running E (atoi arg1)); [reflexivity|].
    rewrite Hread. destruct (Z.of_nat (length paths) =? 0); [reflexivity|].
    rewrite Hcheck. reflexivity.
  - intros Hnum Hrun Hpaths.
    destruct (Z.leb_spec (atoi arg1) 0); [lia|].
    rewrite Hrun, Hread.
    destruct paths as [|p rest]; [contradiction|].
    simpl length. rewrite Nat2Z.inj_succ.
    destruct (Z.eqb_spec (Z.succ (Z.of_nat (length rest))) 0); [lia|].
    rewrite Hcheck. reflexivity.
Qed.

End Run.

(** * The properties on explicit inputs *)

(** ** The identity transform and the bounds *)

Lemma shift_id_roundtrip_witness :
  shift_id 100000 1000 = Some (1000 + 100000)
  /\ shift_id (- 100000) (1000 + 100000) = Some 1000.
Proof. apply shift_id_roundtrip; unfold MAX_UID_GID; lia. Defined.



Lemma overflow_stops_walk_example :
  let E := Examples.quiet Examples.two_roots_tree in
  fst (convert_path E "/ct" 100000 Examples.two_roots) = -1
  /\ (let r := convert_and_commit E Examples.conf_path ([] ++ "/ct" :: ["/mp"])
                 1 100000 Examples.two_roots in
      fst r = 1 /\ files (snd r) = files Examples.two_roots).
Proof.
  intros E.
  pose (s_walk := set_globals 100000 0 0 (log (EvConverting "/ct") Examples.two_roots)).
  destruct (overflow_stops_walk E Examples.conf_path "/ct" "/ct/f"
              [] ["/mp"] ["/ct"] ["/ct/g"] 1 100000 Examples.two_roots
              (snd (process_file E "/ct" s_walk))
              (Stat 1 2 Examples.DIR 0 0) (Stat 1 7 Examples.REG 150000 1000))
    as (_ & _ & _ & _ & Hcp & Hrun).
  - by_computation.
  - by_computation.
  - by_computation.
  - by_computation.
  - by_computation.
  - by_computation.
  - by_computation.
  - by_computation.
  - left. by_computation.
  - split; [exact Hcp|exact Hrun].
Defined.

(** C3, where the code departs from it.  A file owned by the uid
    4294967294 is to be shifted by +100000; the new uid, 4295067294, exceeds
    [MAX_UID_GID].  The sum wraps in [uid_t] to 99998, the test of line 209
    does not fire, and the run goes through: exit status 0, no error
    counted, the file now owned by 99998 and the flag rewritten to 1. *)
Theorem overflow_wraps_unnoticed :
  let r := main (Examples.quiet Examples.wrap_tree)
             ["privconvert"; "111"; "unprivileged"] Examples.wrap_owner in
  (st_uid <$> lstat Examples.wrap_owner "/ct/f") = Some 4294967294
  /\ MAX_UID_GID < 4294967294 + UID_GID_OFFSET
  /\ fst r = 0
  /\ (i_uid <$> inodes (snd r) !! (1, 7)) = Some 99998
  /\ In (EvProcessed 2 0) (trace (snd r))
  /\ files (snd r) !! Examples.conf_path
     = Some ("rootfs: /ct" ++ String NL ("unprivileged: 1" ++ String NL ""))%string.
Proof. vm_compute. repeat split. left. reflexivity. Qed.

(** ** ACLs and symbolic links *)



(** The link changes owner; the file it points to does not, and the only
    call is the [lchown]. *)
Lemma symlink_target_untouched :
  let s := Examples.with_symlink in
  let s' := snd (process_file (Examples.quiet Examples.no_tree) "/ct/l" s) in
  trace s' = [EvLchown "/ct/l" 101000 101000]
  /\ (i_uid <$> inodes s' !! (1, 9)) = Some 101000
  /\ inodes s' !! (1, 7) = inodes s !! (1, 7).
Proof. by_computation. Qed.

(** ** Hard links *)

Lemma mutation_at_most_once_witness :
  (mutation_count (links Examples.hardlinks) (1%Z, 7%Z) MOwner
     (trace (snd (convert_paths (Examples.quiet (fun _ => Examples.hardlink_tree))
                    ["/ct"] 100000%Z 0%Z Examples.hardlinks))) <= 1)%nat.
Proof.
  destruct (mutation_at_most_once (Examples.quiet (fun _ => Examples.hardlink_tree))
              ["/ct"] 100000 Examples.hardlinks) as (H & _ & _).
  - intros n. reflexivity.
  - reflexivity.
  - reflexivity.
  - apply H.
Defined.

(** C4 as stated fails when [malloc] fails: the pair is not marked, and the
    second name of the file has the owner shifted a second time. *)
Lemma hardlink_shifted_twice :
  let s' := snd (convert_paths Examples.no_memory ["/ct"] 100000 0 Examples.hardlinks) in
  mutation_count (links Examples.hardlinks) (1, 7) MOwner (trace s') = 2%nat
  /\ (i_uid <$> inodes s' !! (1, 7)) = Some 200000
  /\ (i_uid <$> inodes Examples.hardlinks !! (1, 7)) = Some 0.
Proof. vm_compute. repeat split. Qed.

(** C9, as the code has it.  After the conversion of the two-level tree
    with offset +100000, in either order of the directory, [a] and [b] both
    have uid 101000, the hash table holds exactly one entry for their inode
    (and three in all, with the two directories), and the processed count
    is 3: the two directories and the name visited first; the second name is
    skipped before the counter is incremented. *)
Theorem two_level_hardlink_scenario :
  forall t : dirtree,
    t = Examples.two_level_tree \/ t = Examples.two_level_tree_rev ->
    let r := convert_path (Examples.quiet (fun _ => t)) "/root" 100000
               Examples.two_level in
    fst r = 0
    /\ (st_uid <$> lstat (snd r) "/root/a") = Some 101000
    /\ (st_uid <$> lstat (snd r) "/root/sub/b") = Some 101000
    /\ count_key (1, 7) (table_keys (snd r)) = 1%nat
    /\ length (table_keys (snd r)) = 3%nat
    /\ g_files_processed (snd r) = 3
    /\ g_errors (snd r) = 0.
Proof. intros t [-> | ->]; vm_compute; repeat split. Qed.

Lemma two_level_hardlink_scenario_witness :
  let r := convert_path (Examples.quiet (fun _ => Examples.two_level_tree)) "/root"
             100000 Examples.two_level in
  (st_uid <$> lstat (snd r) "/root/sub/b") = Some 101000
  /\ g_files_processed (snd r) = 3.
Proof.
  destruct (two_level_hardlink_scenario Examples.two_level_tree (or_introl eq_refl))
    as (_ & _ & Hb & _ & _ & Hn & _).
  split; [exact Hb|exact Hn].
Defined.

(** C9 as stated fails in its count: the processed count is not 2. *)
Lemma two_level_processed_not_two :
  g_files_processed
    (snd (convert_path (Examples.quiet (fun _ => Examples.two_level_tree)) "/root"
            100000 Examples.two_level)) <> 2.
Proof. vm_compute. discriminate. Qed.

(** ** The driver and the configuration *)

Lemma commit_all_or_nothing_witness :
  let E := Examples.quiet Examples.two_roots_tree in
  let r := convert_and_commit E Examples.conf_path ["/ct"; "/mp"] 1 100000
             Examples.two_roots in
  In (EvConverting "/mp") (trace (snd r))
  /\ fst r = 1
  /\ snd r = free_inode_table
               (snd (convert_paths E ["/ct"; "/mp"] 100000 0 Examples.two_roots))
  /\ files (snd r) = files Examples.two_roots.
Proof.
  intros E r.
  destruct (commit_all_or_nothing E Examples.conf_path ["/ct"; "/mp"] 1 100000
              Examples.two_roots) as (Hall & _ & Hfail & _).
  - repeat constructor; vm_compute; reflexivity.
  - split.
    + apply Hall. right. left. reflexivity.
    + apply Hfail. intros [(sb & _ & _ & Hr & _) _].
      vm_compute in Hr. discriminate.
Defined.


Lemma main_already_in_target_state_witness :
  main (Examples.quiet Examples.two_roots_tree) ["privconvert"; "111"; "privileged"]
    Examples.two_roots
  = (0, Examples.two_roots).
Proof.
  destruct (main_already_in_target_state (Examples.quiet Examples.two_roots_tree)
              "privconvert" "111" "privileged" Examples.two_roots
              0 (- UID_GID_OFFSET) ["/ct"; "/mp"]) as [_ H].
  - reflexivity.
  - by_computation.
  - apply H; [by_computation|reflexivity|discriminate].
Defined.

(** C10 as stated fails on the exit status: with the container running,
    the configuration records the state asked for and [main] exits with
    status 1. *)
Lemma main_running_exits_1 :
  read_config Examples.busy (config_path_of (atoi "111")) Examples.two_roots
  = Some (["/ct"; "/mp"], 0)
  /\ parse_mode "privileged" = Some (0, - UID_GID_OFFSET)
  /\ main Examples.busy ["privconvert"; "111"; "privileged"] Examples.two_roots
     = (1, Examples.two_roots).
Proof. by_computation. Qed.

(** * Further properties of the code *)

(** ** The inode hash table, lines 38-92 *)

(** The bucket index is an index of [inode_table]. *)
Theorem inode_hash_in_table (dev ino : Z) :
  0 <= dev -> 0 <= ino -> 0 <= inode_hash dev ino < INODE_HASH_SIZE.
Proof.
  intros Hd Hi. unfold inode_hash, INODE_HASH_SIZE.
  assert (Hx : 0 <= Z.lxor dev ino) by (apply Z.lxor_nonneg; tauto).
  pose proof (Z.mod_pos_bound (Z.lxor dev ino) 65536 ltac:(lia)) as Hm.
  rewrite to_uid_small by lia. exact Hm.
Qed.

Lemma inode_hash_in_table_witness : 0 <= inode_hash 2049 131074 < INODE_HASH_SIZE.
Proof. apply inode_hash_in_table; lia. Defined.

Lemma inode_seen_mark_eq (E : env) (d i d' i' : Z) (s : state) :
  inode_seen d' i' (inode_mark_seen E d i s)
  = (negb (malloc_fails E (allocs s)) && ((d =? d') && (i =? i')))
    || inode_seen d' i' s.
Proof.
  unfold inode_seen, inode_mark_seen.
  destruct (malloc_fails E (allocs s)); [reflexivity|]. simpl.
  unfold bucket at 1.
  destruct (decide (inode_hash d i = inode_hash d' i')) as [Heq|Hne].
  - rewrite Heq, lookup_insert_eq. simpl.
    destruct ((d =? d') && (i =? i')); reflexivity.
  - rewrite lookup_insert_ne by exact Hne.
    destruct (Z.eqb_spec d d') as [->|_]; [|reflexivity].
    destruct (Z.eqb_spec i i') as [->|_]; [|reflexivity].
    contradiction.
Qed.

(** What [inode_seen] answers after one [inode_mark_seen]: the pair just
    marked is seen when the allocation succeeded; the answer for every other
    pair is as before, also for one in the same bucket; and when the
    allocation failed every answer is as before. *)
Theorem inode_seen_after_mark (E : env) (d i : Z) (s : state) :
  (malloc_fails E (allocs s) = false ->
   inode_seen d i (inode_mark_seen E d i s) = true)
  /\ (forall d' i', (d', i') <> (d, i) ->
        inode_seen d' i' (inode_mark_seen E d i s) = inode_seen d' i' s)
  /\ (malloc_fails E (allocs s) = true ->
      forall d' i', inode_seen d' i' (inode_mark_seen E d i s) = inode_seen d' i' s).
Proof.
  split; [|split].
  - intros Hm. rewrite inode_seen_mark_eq, Hm, !Z.eqb_refl. reflexivity.
  - intros d' i' Hne. rewrite inode_seen_mark_eq.
    destruct (Z.eqb_spec d d') as [->|_]; [|rewrite andb_false_r; reflexivity].
    destruct (Z.eqb_spec i i') as [->|_]; [|rewrite andb_false_r; reflexivity].
    contradiction.
  - intros Hm d' i'. rewrite inode_seen_mark_eq, Hm. reflexivity.
Qed.

Lemma inode_seen_after_mark_witness :
  inode_seen 1 7 (inode_mark_seen MoreExamples.quiet 1 7 Examples.hardlinks) = true
  /\ inode_seen 1 65543 (inode_mark_seen MoreExamples.quiet 1 7 Examples.hardlinks)
     = inode_seen 1 65543 Examples.hardlinks
  /\ inode_seen 1 7 (inode_mark_seen Examples.no_memory 1 7 Examples.hardlinks)
     = inode_seen 1 7 Examples.hardlinks.
Proof.
  destruct (inode_seen_after_mark MoreExamples.quiet 1 7 Examples.hardlinks)
    as (Hsame & Hother & _).
  destruct (inode_seen_after_mark Examples.no_memory 1 7 Examples.hardlinks)
    as (_ & _ & Hfail).
  split; [apply Hsame; reflexivity|].
  split; [apply Hother; discriminate|apply Hfail; reflexivity].
Defined.

Lemma mark_all_seen (E : env) (d i : Z) :
  (forall n, malloc_fails E n = false) ->
  forall (ks : list key) (s : state),
    inode_seen d i (mark_all E ks s) = true
    <-> In (d, i) ks \/ inode_seen d i s = true.
Proof.
  intros Hm. induction ks as [|[d0 i0] ks IH]; intros s.
  - simpl. tauto.
  - unfold mark_all in *. simpl. rewrite IH, inode_seen_mark_eq, Hm. simpl.
    destruct (Z.eqb_spec d0 d) as [->|Hd]; simpl.
    + destruct (Z.eqb_spec i0 i) as [->|Hi]; simpl.
      * tauto.
      * split; [tauto|]. intros [[H|H]|H]; [congruence|tauto|tauto].
    + split; [tauto|]. intros [[H|H]|H]; [congruence|tauto|tauto].
Qed.

(** The table is a set: started empty, and with no allocation failing, it
    sees exactly the pairs that were marked. *)
Theorem table_sees_what_was_marked (E : env) (ks : list key) (d i : Z) (s : state) :
  (forall n, malloc_fails E n = false) ->
  inode_seen d i (mark_all E ks (free_inode_table s)) = true <-> In (d, i) ks.
Proof.
  intros Hm. rewrite (mark_all_seen E d i Hm).
  split; [|tauto]. intros [H|H]; [exact H|].
  unfold inode_seen, free_inode_table, bucket in H. simpl in H.
  rewrite lookup_empty in H. discriminate.
Qed.

Lemma table_sees_what_was_marked_witness :
  inode_seen 1 7 (mark_all MoreExamples.quiet [(1, 2); (1, 7); (1, 65543)]
                    (free_inode_table Examples.hardlinks)) = true
  <-> In (1, 7) [(1, 2); (1, 7); (1, 65543)].
Proof. apply table_sees_what_was_marked. intros n. reflexivity. Defined.

(** ** The identity transform, lines 130-146 and 196-214 *)

(** The ids that a non-negative offset accepts, and what they become: the
    sum when it is at most [MAX_UID_GID], and the sum less 2^32 when it
    wraps in [uid_t] to at most [MAX_UID_GID]. *)
Theorem shift_id_accepts_up (o old n : Z) :
  0 <= o < 2 ^ 31 -> 0 <= old < 2 ^ 32 ->
  shift_id o old = Some n
  <-> (old + o <= MAX_UID_GID /\ n = old + o)
      \/ (2 ^ 32 <= old + o <= 2 ^ 32 + MAX_UID_GID /\ n = old + o - 2 ^ 32).
Proof.
  intros Ho Hold. unfold shift_id, MAX_UID_GID.
  destruct (Z.ltb_spec o 0) as [?|_]; [lia|].
  rewrite (to_uid_small o) by lia.
  destruct (Z_lt_ge_dec (old + o) (2 ^ 32)) as [Hlt|Hge].
  - rewrite (to_uid_small (old + o)) by lia.
    destruct (Z.ltb_spec 200000 (old + o)) as [Hbig|Hsmall].
    + split; [discriminate|]. intros [[? ?]|[? ?]]; lia.
    + split.
      * intros Heq. inversion Heq. left. lia.
      * intros [[? ->]|[? ?]]; [reflexivity|lia].
  - assert (Hw : to_uid (old + o) = old + o - 2 ^ 32).
    { unfold to_uid. symmetry. apply (Z.mod_unique _ _ 1); lia. }
    rewrite Hw.
    destruct (Z.ltb_spec 200000 (old + o - 2 ^ 32)) as [Hbig|Hsmall].
    + split; [discriminate|]. intros [[? ?]|[? ?]]; lia.
    + split.
      * intros Heq. inversion Heq. right. lia.
      * intros [[? ?]|[? ->]]; [lia|reflexivity].
Qed.

Lemma shift_id_accepts_up_witness :
  shift_id 100000 4294967294 = Some 99998
  <-> (4294967294 + 100000 <= MAX_UID_GID /\ 99998 = 4294967294 + 100000)
      \/ (2 ^ 32 <= 4294967294 + 100000 <= 2 ^ 32 + MAX_UID_GID
          /\ 99998 = 4294967294 + 100000 - 2 ^ 32).
Proof. apply shift_id_accepts_up; lia. Defined.

(** Shifting down and up again: for an offset [o > 0] and an id [v] with
    [o <= v <= MAX_UID_GID], [-o] gives [v - o] and [+o] gives back [v],
    neither with a bounds error. *)
Theorem shift_id_roundtrip_down (v o : Z) :
  0 < o < 2 ^ 31 -> o <= v -> v <= MAX_UID_GID ->
  shift_id (- o) v = Some (v - o) /\ shift_id o (v - o) = Some v.
Proof.
  intros Ho Hv Hmax. assert (Hb : v <= 200000) by exact Hmax. split.
  - apply shift_id_down; lia.
  - replace v with (v - o + o) at 2 by lia.
    apply shift_id_up; unfold MAX_UID_GID; lia.
Qed.

Lemma shift_id_roundtrip_down_witness :
  shift_id (- 100000) 101000 = Some (101000 - 100000)
  /\ shift_id 100000 (101000 - 100000) = Some 101000.
Proof. apply (shift_id_roundtrip_down 101000 100000); unfold MAX_UID_GID; lia. Defined.

(** The same conversion applied a second time: an id [u] that was shifted
    up by [UID_GID_OFFSET] is refused by a second shift up exactly when
    [u > 0]; the id 0, shifted to 100000, is shifted again to 200000. *)
Theorem second_shift_up (u : Z) :
  0 <= u <= UID_GID_OFFSET ->
  shift_id UID_GID_OFFSET u = Some (u + UID_GID_OFFSET)
  /\ (shift_id UID_GID_OFFSET (u + UID_GID_OFFSET) = None <-> 0 < u).
Proof.
  unfold UID_GID_OFFSET. intros Hu. split.
  - apply shift_id_up; unfold MAX_UID_GID; lia.
  - unfold shift_id, MAX_UID_GID. simpl (100000 <? 0).
    rewrite (to_uid_small 100000), (to_uid_small (u + 100000 + 100000)) by lia.
    destruct (Z.ltb_spec 200000 (u + 100000 + 100000)).
    + split; [lia|reflexivity].
    + split; [discriminate|lia].
Qed.

Lemma second_shift_up_witness :
  shift_id UID_GID_OFFSET 0 = Some (0 + UID_GID_OFFSET)
  /\ (shift_id UID_GID_OFFSET (0 + UID_GID_OFFSET) = None <-> 0 < 0).
Proof. apply second_shift_up. unfold UID_GID_OFFSET. lia. Defined.

(** ** The ACL shift, lines 95-170 *)







Lemma shift_entries_untagged (E : env) (p : string) (ty : acl_type) (o : Z) :
  (forall idx, acl_entry_fault E p ty idx <> Some TagFails) ->
  forall (entries : list acl_entry) (idx : nat),
    Forall (fun e => is_user_or_group (e_tag e) = false) entries ->
    shift_entries E p ty o idx entries = Some (entries, false).
Proof.
  intros Hf. induction entries as [|e rest IH]; intros idx Hall; [reflexivity|].
  inversion Hall as [|? ? He Hrest]; subst. simpl.
  rewrite He, (IH (S idx) Hrest).
  specialize (Hf idx). destruct (acl_entry_fault E p ty idx) as [[| |]|];
    try reflexivity. contradiction.
Qed.

(** An ACL without named users and groups is read and not written: the
    function returns 0 with the object as it was. *)
Theorem shift_acl_skips_trivial_acl (E : env) (p : string) (ty : acl_type) (o : Z)
    (s : state) (a : list acl_entry) :
  acl_get_file E p ty s = inr a ->
  Forall (fun e => is_user_or_group (e_tag e) = false) a ->
  (forall idx, acl_entry_fault E p ty idx <> Some TagFails) ->
  shift_acl E p ty o s = (0, log (EvAclGet p ty) s).
Proof.
  intros Hget Hall Hf. unfold shift_acl.
  rewrite acl_get_file_log, Hget, (shift_entries_untagged E p ty o Hf a 0 Hall).
  reflexivity.
Qed.

Lemma shift_acl_skips_trivial_acl_witness :
  shift_acl MoreExamples.quiet "/ct/f" ACL_TYPE_ACCESS 100000
    (Examples.with_acls MoreExamples.acl_minimal)
  = (0, log (EvAclGet "/ct/f" ACL_TYPE_ACCESS)
          (Examples.with_acls MoreExamples.acl_minimal)).
Proof.
  apply (shift_acl_skips_trivial_acl _ _ _ _ _ MoreExamples.acl_minimal).
  - reflexivity.
  - repeat constructor.
  - intros idx. discriminate.
Defined.

Lemma acl_set_file_keeps (E : env) (p : string) (ty : acl_type) (a : list acl_entry)
    (s : state) (k : key) :
  with_acl ty [] <$> inodes (snd (acl_set_file E p ty a s)) !! k
  = with_acl ty [] <$> inodes s !! k.
Proof.
  unfold acl_set_file. destruct (acl_set_fails E p ty); [reflexivity|].
  destruct (resolve _ _ _) as [k0|] eqn:Hr; [|reflexivity].
  simpl. simpl in Hr.
  destruct (inodes s !! k0) as [i|] eqn:Hi; [|reflexivity]. simpl.
  destruct (decide (k0 = k)) as [->|Hne].
  - rewrite lookup_insert_eq, Hi. simpl. destruct ty; reflexivity.
  - rewrite lookup_insert_ne by exact Hne. reflexivity.
Qed.

Lemma shift_acl_keeps (E : env) (p : string) (ty : acl_type) (o : Z) (s : state)
    (k : key) :
  with_acl ty [] <$> inodes (snd (shift_acl E p ty o s)) !! k
  = with_acl ty [] <$> inodes s !! k.
Proof.
  unfold shift_acl.
  destruct (acl_get_file _ _ _ _) as [e|a]; [reflexivity|].
  destruct (shift_entries _ _ _ _ _ _) as [[a' [|]]|]; try reflexivity.
  pose proof (acl_set_file_keeps E p ty a' (log (EvAclGet p ty) s) k) as H.
  destruct (acl_set_file _ _ _ _ _) as [r s2]. exact H.
Qed.

(** [shift_acl] changes nothing but the ACL of the variant it was called
    for: in every inode the mode, the owner and the other ACL are as before,
    and so are the counters, the hash table and the files. *)
Theorem shift_acl_changes_one_acl (E : env) (p : string) (ty : acl_type) (o : Z)
    (s : state) :
  same_run s (snd (shift_acl E p ty o s))
  /\ forall k : key,
       with_acl ty [] <$> inodes (snd (shift_acl E p ty o s)) !! k
       = with_acl ty [] <$> inodes s !! k.
Proof. split; [apply shift_acl_same_run|apply shift_acl_keeps]. Qed.

(** ** The object converter, lines 173-257 *)

Lemma chown_mode_type (m : Z) : Z.land (chown_mode m) S_IFMT = Z.land m S_IFMT.
Proof.
  unfold chown_mode. destruct (S_ISDIR m); [reflexivity|].
  assert (H1 : Z.land (Z.land m (Z.lnot S_ISUID)) S_IFMT = Z.land m S_IFMT).
  { rewrite <- Z.land_assoc. reflexivity. }
  destruct (Z.land m S_IXGRP =? 0); [exact H1|].
  rewrite <- Z.land_assoc.
  change (Z.land (Z.lnot S_ISGID) S_IFMT) with S_IFMT. exact H1.
Qed.

Lemma restored_mode_type (x y : Z) :
  Z.land (Z.lor (Z.land x S_IFMT) (Z.land y MODE_BITS)) S_IFMT = Z.land x S_IFMT.
Proof.
  rewrite Z.land_lor_distr_l, <- !Z.land_assoc.
  change (Z.land S_IFMT S_IFMT) with S_IFMT.
  change (Z.land MODE_BITS S_IFMT) with 0.
  rewrite Z.land_0_r, Z.lor_0_r. reflexivity.
Qed.

Lemma restored_mode_eq (m : Z) :
  0 <= m < 2 ^ 16 ->
  Z.lor (Z.land (chown_mode m) S_IFMT) (Z.land m MODE_BITS) = m.
Proof.
  intros Hm. rewrite chown_mode_type, <- Z.land_lor_distr_r.
  change (Z.lor S_IFMT MODE_BITS) with (Z.ones 16).
  rewrite Z.land_ones by lia. apply Z.mod_small. exact Hm.
Qed.

Lemma resolve_own (s : state) (p : string) (k : key) (i : inode) :
  links s !! p = Some k -> inodes s !! k = Some i -> S_ISLNK (i_mode i) = false ->
  resolve MAXSYMLINKS s p = Some k.
Proof. intros Hl Hi Hm. simpl. rewrite Hl, Hi, Hm. reflexivity. Qed.

Lemma with_acl_same (ty : acl_type) (i : inode) : with_acl ty (acl_of ty i) i = i.
Proof. destruct i, ty; reflexivity. Qed.

(** On an entry that is not a symbolic link, [shift_acl] reaches the inode
    of the entry and no other. *)
Lemma shift_acl_own (E : env) (p : string) (ty : acl_type) (o : Z) (s : state)
    (k : key) (i : inode) :
  links s !! p = Some k -> inodes s !! k = Some i -> S_ISLNK (i_mode i) = false ->
  links (snd (shift_acl E p ty o s)) = links s
  /\ exists a, inodes (snd (shift_acl E p ty o s)) = <[k := with_acl ty a i]> (inodes s).
Proof.
  intros Hl Hi Hm.
  assert (Hid : inodes s = <[k := with_acl ty (acl_of ty i) i]> (inodes s)).
  { rewrite with_acl_same. symmetry. apply insert_id. exact Hi. }
  split; [apply shift_acl_same_run|].
  unfold shift_acl.
  destruct (acl_get_file _ _ _ _) as [e|a]; [eexists; exact Hid|].
  destruct (shift_entries _ _ _ _ _ _) as [[a' [|]]|];
    [|eexists; exact Hid|eexists; exact Hid].
  unfold acl_set_file. destruct (acl_set_fails E p ty); [eexists; exact Hid|].
  erewrite (resolve_own _ p k i); [|exact Hl|exact Hi|exact Hm].
  simpl. rewrite Hi. simpl. exists a'. reflexivity.
Qed.

(** What a successful change of owner and the calls after it leave of the
    inode map: one inode is replaced, that of the entry. *)
Lemma apply_ids_own (E : env) (p : string) (u g : Z) (s : state) (k : key) (i : inode) :
  links s !! p = Some k -> inodes s !! k = Some i ->
  lchown_fails E p = false ->
  let s' := snd (apply_ids E p (stat_of k i) u g s) in
  links s' = links s
  /\ exists i' : inode,
       inodes s' = <[k := i']> (inodes s)
       /\ i_uid i' = u /\ i_gid i' = g
       /\ Z.land (i_mode i') S_IFMT = Z.land (i_mode i) S_IFMT
       /\ (S_ISLNK (i_mode i) = false -> chmod_fails E p = false ->
           i_mode i' = Z.lor (Z.land (chown_mode (i_mode i)) S_IFMT)
                             (Z.land (i_mode i) MODE_BITS)).
Proof.
  intros Hl Hi Hch. unfold apply_ids, lchown. rewrite Hch. simpl links. simpl inodes.
  rewrite Hl, Hi. simpl Z.eqb. cbv iota. simpl st_mode.
  set (i1 := Inode (chown_mode (i_mode i)) u g (i_acl_access i) (i_acl_default i)
                   (i_target i)).
  set (s1 := set_inodes (<[k := i1]> (inodes s)) (log (EvLchown p u g) s)).
  assert (Hl1 : links s1 !! p = Some k) by exact Hl.
  assert (Hi1 : inodes s1 !! k = Some i1) by (simpl; apply lookup_insert_eq).
  destruct (S_ISLNK (i_mode i)) eqn:Hlnk; simpl negb; cbv iota.
  { simpl. split; [reflexivity|]. exists i1. repeat split.
    - apply chown_mode_type.
    - discriminate. }
  assert (Hlnk1 : S_ISLNK (i_mode i1) = false).
  { unfold S_ISLNK in *. simpl. rewrite chown_mode_type. exact Hlnk. }
  (* after chmod *)
  assert (H2 : exists i2, links (snd (chmod E p (i_mode i) s1)) = links s
                 /\ inodes (snd (chmod E p (i_mode i) s1)) = <[k := i2]> (inodes s)
                 /\ i_uid i2 = u /\ i_gid i2 = g
                 /\ Z.land (i_mode i2) S_IFMT = Z.land (i_mode i) S_IFMT
                 /\ (chmod_fails E p = false ->
                     i_mode i2 = Z.lor (Z.land (chown_mode (i_mode i)) S_IFMT)
                                       (Z.land (i_mode i) MODE_BITS))).
  { unfold chmod. destruct (chmod_fails E p).
    - exists i1. simpl. repeat split; [apply chown_mode_type|discriminate].
    - erewrite (resolve_own _ p k i1); [|exact Hl1|exact Hi1|exact Hlnk1].
      simpl inodes. rewrite lookup_insert_eq. simpl.
      eexists. split; [reflexivity|]. split; [apply insert_insert_eq|].
      simpl. repeat split. rewrite restored_mode_type. apply chown_mode_type. }
  destruct H2 as (i2 & Hl2 & Hi2 & Hu2 & Hg2 & Ht2 & Hm2).
  set (s2 := snd (chmod E p (i_mode i) s1)) in *.
  assert (Hk2 : inodes s2 !! k = Some i2) by (rewrite Hi2; apply lookup_insert_eq).
  assert (Hlnk2 : S_ISLNK (i_mode i2) = false).
  { unfold S_ISLNK in *. rewrite Ht2. exact Hlnk. }
  assert (Hlp2 : links s2 !! p = Some k) by (rewrite Hl2; exact Hl).
  destruct (shift_acl_own E p ACL_TYPE_ACCESS (g_offset s2) s2 k i2 Hlp2 Hk2 Hlnk2)
    as (Hl3 & a3 & Hi3).
  set (s3 := snd (shift_acl E p ACL_TYPE_ACCESS (g_offset s2) s2)) in *.
  set (i3 := with_acl ACL_TYPE_ACCESS a3 i2) in *.
  assert (Hi3' : inodes s3 = <[k := i3]> (inodes s)).
  { rewrite Hi3, Hi2. apply insert_insert_eq. }
  destruct (S_ISDIR (i_mode i)).
  - assert (Hk3 : inodes s3 !! k = Some i3) by (rewrite Hi3'; apply lookup_insert_eq).
    assert (Hlp3 : links s3 !! p = Some k) by (rewrite Hl3; exact Hlp2).
    destruct (shift_acl_own E p ACL_TYPE_DEFAULT (g_offset s3) s3 k i3 Hlp3 Hk3 Hlnk2)
      as (Hl4 & a4 & Hi4).
    simpl. split; [rewrite Hl4, Hl3; exact Hl2|].
    exists (with_acl ACL_TYPE_DEFAULT a4 i3). split.
    + rewrite Hi4, Hi3'. apply insert_insert_eq.
    + simpl. repeat split; try assumption. intros _. exact Hm2.
  - simpl. split; [rewrite Hl3; exact Hl2|].
    exists i3. split; [exact Hi3'|].
    simpl. repeat split; try assumption. intros _. exact Hm2.
Qed.

Lemma lstat_inv (s : state) (p : string) (sb : stat_t) :
  lstat s p = Some sb ->
  exists (k : key) (i : inode),
    links s !! p = Some k /\ inodes s !! k = Some i /\ sb = stat_of k i.
Proof.
  unfold lstat. destruct (links s !! p) as [k|]; [|discriminate].
  destruct (inodes s !! k) as [i|] eqn:Hi; [|discriminate].
  intros H. inversion H. exists k, i. repeat split. exact Hi.
Qed.

(** The walk is stopped by a bounds violation and by nothing else:
    [process_file] returns 0 or 1, and 1 exactly when the entry can be
    examined, its inode was not seen, and the uid or the gid is refused. *)
Theorem process_file_stops_only_on_bounds (E : env) (p : string) (s : state) :
  (fst (process_file E p s) = 0 \/ fst (process_file E p s) = 1)
  /\ (fst (process_file E p s) = 1
      <-> exists sb : stat_t,
            lstat s p = Some sb
            /\ inode_seen (st_dev sb) (st_ino sb) s = false
            /\ (shift_id (g_offset s) (st_uid sb) = None
                \/ shift_id (g_offset s) (st_gid sb) = None)).
Proof.
  destruct (lstat s p) as [sb|] eqn:Hst.
  2:{ unfold process_file. rewrite Hst. simpl. split; [left; reflexivity|].
      split; [discriminate|]. intros (sb & H & _). discriminate. }
  destruct (inode_seen (st_dev sb) (st_ino sb) s) eqn:Hseen.
  { rewrite (process_file_seen E p s sb Hst Hseen). simpl.
    split; [left; reflexivity|]. split; [discriminate|].
    intros (sb' & H & Hs & _). inversion H; subst. congruence. }
  rewrite (process_file_fresh E p s sb Hst Hseen).
  destruct (shift_id (g_offset s) (st_uid sb)) as [u|] eqn:Hu.
  - destruct (shift_id (g_offset s) (st_gid sb)) as [g|] eqn:Hg.
    + rewrite apply_ids_continues. split; [left; reflexivity|].
      split; [discriminate|].
      intros (sb' & H & _ & [Hn|Hn]); inversion H; subst; congruence.
    + simpl. split; [right; reflexivity|]. split; [|reflexivity].
      intros _. exists sb. repeat split; [exact Hseen|right; exact Hg].
  - simpl. split; [right; reflexivity|]. split; [|reflexivity].
    intros _. exists sb. repeat split; [exact Hseen|left; exact Hu].
Qed.

Lemma process_file_stops_only_on_bounds_witness :
  fst (process_file MoreExamples.quiet "/ct/f" Examples.low_owner_up) = 1.
Proof.
  destruct (process_file_stops_only_on_bounds MoreExamples.quiet "/ct/f"
              Examples.low_owner_up) as [_ [_ H]].
  apply H. exists (Stat 1 7 Examples.REG 150000 1000).
  split; [reflexivity|]. split; [reflexivity|]. left. reflexivity.
Defined.

(** When the change of owner fails, the error is counted and the walk goes
    on; nothing of the object is changed, no [chmod] and no ACL call is
    made; and the inode stays marked, so that, no allocation having failed,
    a later visit under any of its names is skipped. *)
Theorem process_file_lchown_failure (E : env) (p : string) (s : state) (sb : stat_t)
    (u g : Z) :
  lstat s p = Some sb ->
  inode_seen (st_dev sb) (st_ino sb) s = false ->
  shift_id (g_offset s) (st_uid sb) = Some u ->
  shift_id (g_offset s) (st_gid sb) = Some g ->
  lchown_fails E p = true ->
  malloc_fails E (allocs s) = false ->
  let s1 := incr_errors
              (log (EvLchown p u g) (inode_mark_seen E (st_dev sb) (st_ino sb) s)) in
  process_file E p s = (0, s1)
  /\ inodes s1 = inodes s
  /\ forall p' : string, links s !! p' = links s !! p -> process_file E p' s1 = (0, s1).
Proof.
  intros Hst Hseen Hu Hg Hfail Hm s1.
  destruct (mark_seen_fields E (st_dev sb) (st_ino sb) s)
    as (_ & _ & _ & Hl & Hi & _).
  split; [|split].
  - rewrite (process_file_fresh E p s sb Hst Hseen), Hu, Hg.
    unfold apply_ids, lchown. rewrite Hfail. reflexivity.
  - exact Hi.
  - intros p' Hp'.
    assert (Hst' : lstat s1 p' = Some sb).
    { unfold lstat in *. simpl. rewrite Hl, Hi, Hp'. exact Hst. }
    apply (process_file_seen E p' s1 sb Hst').
    pose proof (inode_seen_mark_same E (st_dev sb) (st_ino sb) s Hm) as Hnow.
    exact Hnow.
Qed.

Lemma process_file_lchown_failure_witness :
  let E := MoreExamples.chown_denied in
  let s := MoreExamples.with_suid in
  let s1 := incr_errors (log (EvLchown "/ct/su" 100000 100000) (inode_mark_seen E 1 11 s)) in
  process_file E "/ct/su" s = (0, s1)
  /\ inodes s1 = inodes s
  /\ forall p' : string,
       links s !! p' = links s !! "/ct/su" -> process_file E p' s1 = (0, s1).
Proof.
  apply (process_file_lchown_failure MoreExamples.chown_denied "/ct/su"
           MoreExamples.with_suid (Stat 1 11 MoreExamples.SUID 0 0) 100000 100000);
    reflexivity.
Defined.

Lemma process_file_converted (E : env) (p : string) (s : state) (k : key) (i : inode)
    (u g : Z) :
  links s !! p = Some k -> inodes s !! k = Some i ->
  inode_seen (fst k) (snd k) s = false ->
  shift_id (g_offset s) (i_uid i) = Some u ->
  shift_id (g_offset s) (i_gid i) = Some g ->
  lchown_fails E p = false ->
  let s' := snd (process_file E p s) in
  links s' = links s
  /\ exists i' : inode,
       inodes s' = <[k := i']> (inodes s)
       /\ i_uid i' = u /\ i_gid i' = g
       /\ Z.land (i_mode i') S_IFMT = Z.land (i_mode i) S_IFMT
       /\ (S_ISLNK (i_mode i) = false -> chmod_fails E p = false ->
           i_mode i' = Z.lor (Z.land (chown_mode (i_mode i)) S_IFMT)
                             (Z.land (i_mode i) MODE_BITS)).
Proof.
  intros Hl Hi Hseen Hu Hg Hch.
  assert (Hst : lstat s p = Some (stat_of k i)).
  { unfold lstat. rewrite Hl, Hi. reflexivity. }
  rewrite (process_file_fresh E p s (stat_of k i) Hst Hseen).
  simpl st_uid. simpl st_gid. rewrite Hu, Hg.
  destruct (mark_seen_fields E (fst k) (snd k) s) as (_ & _ & _ & Hl1 & Hi1 & _).
  simpl st_dev. simpl st_ino.
  set (s1 := inode_mark_seen E (fst k) (snd k) s) in *.
  destruct (apply_ids_own E p u g s1 k i) as (Hl' & i' & Hi' & Hrest);
    [rewrite Hl1; exact Hl|rewrite Hi1; exact Hi|exact Hch|].
  split; [rewrite Hl'; exact Hl1|].
  exists i'. rewrite Hi', Hi1. split; [reflexivity|exact Hrest].
Qed.

(** A conversion that goes through gives the entry its new owner: when the
    ids are accepted and [lchown] succeeds, [lstat] of the path reports the
    same inode with the shifted uid and gid and with its file type. *)
Theorem process_file_sets_owner (E : env) (p : string) (s : state) (sb : stat_t)
    (u g : Z) :
  lstat s p = Some sb ->
  inode_seen (st_dev sb) (st_ino sb) s = false ->
  shift_id (g_offset s) (st_uid sb) = Some u ->
  shift_id (g_offset s) (st_gid sb) = Some g ->
  lchown_fails E p = false ->
  exists m' : Z,
    lstat (snd (process_file E p s)) p = Some (Stat (st_dev sb) (st_ino sb) m' u g)
    /\ Z.land m' S_IFMT = Z.land (st_mode sb) S_IFMT.
Proof.
  intros Hst Hseen Hu Hg Hch.
  destruct (lstat_inv s p sb Hst) as (k & i & Hl & Hi & ->).
  destruct (process_file_converted E p s k i u g Hl Hi Hseen Hu Hg Hch)
    as (Hl' & i' & Hi' & Hu' & Hg' & Ht' & _).
  exists (i_mode i'). split; [|exact Ht'].
  unfold lstat. rewrite Hl', Hl, Hi', lookup_insert_eq.
  unfold stat_of. simpl. rewrite Hu', Hg'. reflexivity.
Qed.

Lemma process_file_sets_owner_witness :
  exists m' : Z,
    lstat (snd (process_file MoreExamples.quiet "/ct/su" MoreExamples.with_suid)) "/ct/su"
    = Some (Stat 1 11 m' 100000 100000)
    /\ Z.land m' S_IFMT = Z.land MoreExamples.SUID S_IFMT.
Proof.
  apply (process_file_sets_owner MoreExamples.quiet "/ct/su" MoreExamples.with_suid
           (Stat 1 11 MoreExamples.SUID 0 0) 100000 100000); reflexivity.
Defined.

(** The mode survives the change of owner: on an entry that is not a
    symbolic link, when [lchown] and [chmod] succeed, the mode after the
    conversion is the mode found by [lstat] before it, set-user-id and
    set-group-id bits included. *)
Theorem process_file_restores_mode (E : env) (p : string) (s : state) (sb : stat_t)
    (u g : Z) :
  lstat s p = Some sb ->
  inode_seen (st_dev sb) (st_ino sb) s = false ->
  shift_id (g_offset s) (st_uid sb) = Some u ->
  shift_id (g_offset s) (st_gid sb) = Some g ->
  lchown_fails E p = false ->
  chmod_fails E p = false ->
  S_ISLNK (st_mode sb) = false ->
  0 <= st_mode sb < 2 ^ 16 ->
  lstat (snd (process_file E p s)) p
  = Some (Stat (st_dev sb) (st_ino sb) (st_mode sb) u g).
Proof.
  intros Hst Hseen Hu Hg Hch Hcm Hlnk Hm.
  destruct (lstat_inv s p sb Hst) as (k & i & Hl & Hi & ->).
  destruct (process_file_converted E p s k i u g Hl Hi Hseen Hu Hg Hch)
    as (Hl' & i' & Hi' & Hu' & Hg' & _ & Hmode).
  unfold lstat. rewrite Hl', Hl, Hi', lookup_insert_eq.
  unfold stat_of. simpl. rewrite Hu', Hg', (Hmode Hlnk Hcm).
  simpl in Hm. rewrite (restored_mode_eq (i_mode i) Hm). reflexivity.
Qed.

Lemma process_file_restores_mode_witness :
  chown_mode MoreExamples.SUID <> MoreExamples.SUID
  /\ lstat (snd (process_file MoreExamples.quiet "/ct/su" MoreExamples.with_suid)) "/ct/su"
     = Some (Stat 1 11 MoreExamples.SUID 100000 100000).
Proof.
  split; [vm_compute; discriminate|].
  apply (process_file_restores_mode MoreExamples.quiet "/ct/su" MoreExamples.with_suid
           (Stat 1 11 MoreExamples.SUID 0 0) 100000 100000); by_computation.
Defined.

(** The inode map after [process_file]: as before, or with the inode of
    the entry replaced. *)
Lemma process_file_inodes_cases (E : env) (p : string) (s : state) :
  inodes (snd (process_file E p s)) = inodes s
  \/ exists (k : key) (i i' : inode),
       links s !! p = Some k /\ inodes s !! k = Some i
       /\ inodes (snd (process_file E p s)) = <[k := i']> (inodes s).
Proof.
  destruct (lstat s p) as [sb|] eqn:Hst.
  2:{ left. unfold process_file. rewrite Hst. reflexivity. }
  destruct (inode_seen (st_dev sb) (st_ino sb) s) eqn:Hseen.
  { left. rewrite (process_file_seen E p s sb Hst Hseen). reflexivity. }
  destruct (lstat_inv s p sb Hst) as (k0 & i & Hl & Hi & ->).
  destruct (mark_seen_fields E (fst k0) (snd k0) s) as (_ & _ & _ & _ & Hi1 & _).
  destruct (shift_id (g_offset s) (i_uid i)) as [u|] eqn:Hu.
  2:{ left. rewrite (process_file_fresh E p s _ Hst Hseen). simpl st_uid. rewrite Hu.
      simpl. rewrite Hi1. reflexivity. }
  destruct (shift_id (g_offset s) (i_gid i)) as [g|] eqn:Hg.
  2:{ left. rewrite (process_file_fresh E p s _ Hst Hseen). simpl st_uid. simpl st_gid.
      rewrite Hu, Hg. simpl. rewrite Hi1. reflexivity. }
  destruct (lchown_fails E p) eqn:Hch.
  - left. rewrite (process_file_fresh E p s _ Hst Hseen). simpl st_uid. simpl st_gid.
    rewrite Hu, Hg. unfold apply_ids, lchown. rewrite Hch. simpl.
    rewrite Hi1. reflexivity.
  - right. destruct (process_file_converted E p s k0 i u g Hl Hi Hseen Hu Hg Hch)
      as (_ & i' & Hi' & _).
    exists k0, i, i'. repeat split; assumption.
Qed.

(** [process_file] on a path changes no inode but the one the path is a
    name of, whatever the kind of the entry and whatever fails. *)
Theorem process_file_touches_own_inode (E : env) (p : string) (s : state) (k : key) :
  links s !! p <> Some k ->
  inodes (snd (process_file E p s)) !! k = inodes s !! k.
Proof.
  intros Hne.
  destruct (process_file_inodes_cases E p s) as [->|(k0 & i & i' & Hl & _ & ->)];
    [reflexivity|].
  apply lookup_insert_ne. congruence.
Qed.

Lemma process_file_touches_own_inode_witness :
  inodes (snd (process_file MoreExamples.quiet "/ct/su" MoreExamples.with_suid)) !! (1, 7)
  = inodes MoreExamples.with_suid !! (1, 7).
Proof. apply process_file_touches_own_inode. by_computation. Defined.

(** ** The walk, lines 260-290 *)

Lemma apply_ids_counts (E : env) (p : string) (sb : stat_t) (u g : Z) (s : state) :
  let s' := snd (apply_ids E p sb u g s) in
  (g_files_processed s' = to_u64 (g_files_processed s + 1) /\ g_errors s' = g_errors s)
  \/ (g_files_processed s' = g_files_processed s /\ g_errors s' = to_u64 (g_errors s + 1)).
Proof.
  unfold apply_ids.
  pose proof (lchown_same_run E p u g s) as H1.
  destruct (lchown E p u g s) as [r s1]. simpl in H1.
  destruct H1 as (_ & Hp1 & He1 & _).
  destruct (r =? -1); [right; simpl; rewrite Hp1, He1; split; reflexivity|].
  left. simpl.
  destruct (negb (S_ISLNK (st_mode sb))); [|rewrite Hp1, He1; split; reflexivity].
  pose proof (chmod_same_run E p (st_mode sb) s1) as H2.
  set (s2 := snd (chmod E p (st_mode sb) s1)) in *.
  pose proof (shift_acl_same_run E p ACL_TYPE_ACCESS (g_offset s2) s2) as H3.
  set (s3 := snd (shift_acl E p ACL_TYPE_ACCESS (g_offset s2) s2)) in *.
  pose proof (shift_acl_same_run E p ACL_TYPE_DEFAULT (g_offset s3) s3) as H4.
  destruct H2 as (_ & Hp2 & He2 & _), H3 as (_ & Hp3 & He3 & _),
           H4 as (_ & Hp4 & He4 & _).
  destruct (S_ISDIR (st_mode sb)); split; congruence.
Qed.

Lemma process_file_counts (E : env) (p : string) (s : state) :
  let s' := snd (process_file E p s) in
  (g_files_processed s' = g_files_processed s /\ g_errors s' = g_errors s)
  \/ (g_files_processed s' = to_u64 (g_files_processed s + 1)
      /\ g_errors s' = g_errors s)
  \/ (g_files_processed s' = g_files_processed s
      /\ g_errors s' = to_u64 (g_errors s + 1)).
Proof.
  unfold process_file. destruct (lstat s p) as [sb|].
  2:{ right; right. split; reflexivity. }
  destruct (inode_seen _ _ s); [left; split; reflexivity|].
  destruct (mark_seen_fields E (st_dev sb) (st_ino sb) s) as (_ & Hp & He & _).
  set (s1 := inode_mark_seen E (st_dev sb) (st_ino sb) s) in *.
  destruct (shift_id _ (st_uid sb)) as [u|].
  2:{ right; right. simpl. rewrite Hp, He. split; reflexivity. }
  destruct (shift_id _ (st_gid sb)) as [g|].
  2:{ right; right. simpl. rewrite Hp, He. split; reflexivity. }
  right. rewrite <- Hp, <- He. apply apply_ids_counts.
Qed.

Lemma nftw_entries_counts (E : env) :
  forall (entries : list string) (fa : option nat) (s : state),
  0 <= g_files_processed s -> 0 <= g_errors s ->
  g_files_processed s + g_errors s + Z.of_nat (length entries) < 2 ^ 64 ->
  let s' := snd (nftw_entries (process_file E) entries fa s) in
  g_files_processed s <= g_files_processed s'
  /\ g_errors s <= g_errors s'
  /\ g_files_processed s' + g_errors s'
     <= g_files_processed s + g_errors s + Z.of_nat (length entries).
Proof.
  induction entries as [|e rest IH]; intros fa s Hp He Hlen.
  - simpl. destruct fa as [[|n]|]; simpl; lia.
  - simpl length in *. rewrite Nat2Z.inj_succ in *.
    assert (Hstep : nftw_entries (process_file E) (e :: rest) fa s = (-1, s)
              \/ exists fa', nftw_entries (process_file E) (e :: rest) fa s
                 = (let '(r, s1) := process_file E e s in
                    if r =? 0 then nftw_entries (process_file E) rest fa' s1
                    else (r, s1))).
    { simpl. destruct fa as [[|n]|]; [left; reflexivity| |];
        right; eexists; reflexivity. }
    destruct Hstep as [Hstep|[fa' Hstep]]; rewrite Hstep; clear Hstep.
    { simpl. lia. }
    pose proof (process_file_counts E e s) as Hc.
    destruct (process_file E e s) as [r s1]. simpl in Hc.
    assert (Hs1 : g_files_processed s <= g_files_processed s1
                  /\ g_errors s <= g_errors s1
                  /\ g_files_processed s1 + g_errors s1
                     <= g_files_processed s + g_errors s + 1).
    { destruct Hc as [[-> ->]|[[-> ->]|[-> ->]]];
        rewrite ?to_u64_small by lia; lia. }
    destruct (r =? 0); [|simpl; lia].
    assert (Ha : 0 <= g_files_processed s1) by lia.
    assert (Hb : 0 <= g_errors s1) by lia.
    assert (Hc' : g_files_processed s1 + g_errors s1 + Z.of_nat (length rest) < 2 ^ 64)
      by lia.
    specialize (IH fa' s1 Ha Hb Hc'). simpl in IH. cbv zeta. lia.
Qed.

(** The two counters of a walk: started at 0 by [convert_path], they stay
    non-negative and together count at most the entries of the tree, each
    entry being processed, or in error, or skipped. *)
Theorem walk_counters_bounded (E : env) (path : string) (offset : Z) (s : state) :
  Z.of_nat (length (preorder (nftw_tree E path))) < 2 ^ 64 ->
  let s' := snd (nftw E path (process_file E) (set_globals offset 0 0 s)) in
  0 <= g_files_processed s' /\ 0 <= g_errors s'
  /\ g_files_processed s' + g_errors s'
     <= Z.of_nat (length (preorder (nftw_tree E path))).
Proof.
  intros Hlen. unfold nftw.
  pose proof (nftw_entries_counts E (preorder (nftw_tree E path))
                (nftw_fails_after E path) (set_globals offset 0 0 s)) as H.
  simpl g_files_processed in H at 1 2 3 5. simpl g_errors in H at 1 2 4 6.
  specialize (H ltac:(lia) ltac:(lia) ltac:(lia)). simpl in H. lia.
Qed.

Lemma walk_counters_bounded_witness :
  let s' := snd (nftw (Examples.quiet (fun _ => Examples.two_level_tree)) "/root"
                   (process_file (Examples.quiet (fun _ => Examples.two_level_tree)))
                   (set_globals 100000 0 0 Examples.two_level)) in
  0 <= g_files_processed s' /\ 0 <= g_errors s'
  /\ g_files_processed s' + g_errors s'
     <= Z.of_nat (length (preorder Examples.two_level_tree)).
Proof.
  apply (walk_counters_bounded (Examples.quiet (fun _ => Examples.two_level_tree))).
  by_computation.
Defined.










(** ** Storage specifications, lines 293-341 *)

Lemma str_take_all (n : nat) (s : string) :
  (String.length s <= n)%nat -> str_take n s = s.
Proof.
  revert n. induction s as [|c s IH]; intros [|n] H; simpl in *;
    try reflexivity; try lia.
  rewrite IH by lia. reflexivity.
Qed.

Lemma str_take_idem (n : nat) (s : string) : str_take n (str_take n s) = str_take n s.
Proof.
  revert n. induction s as [|c s IH]; intros [|n]; simpl; try reflexivity.
  rewrite IH. reflexivity.
Qed.

Lemma snprintf_fits (size : Z) (s : string) :
  strlen s <= size - 1 -> snprintf size s = s.
Proof. intros H. unfold snprintf. apply str_take_all. unfold strlen in H. lia. Qed.

Lemma snprintf_first (size : Z) (c : ascii) (s : string) :
  2 <= size -> first_char (snprintf size (String c s)) = c.
Proof.
  intros H. unfold snprintf.
  destruct (Z.to_nat (size - 1)) as [|n] eqn:Hn; [lia|]. reflexivity.
Qed.

Lemma parse_storage_path_slash (spec p : string) (len : Z) :
  2 <= len -> parse_storage_path spec len = Some p -> first_char p = "/"%char.
Proof.
  intros Hlen. unfold parse_storage_path.
  destruct (Ascii.eqb_spec (first_char spec) "/") as [Hs|_].
  - intros H. inversion H. destruct spec as [|c spec]; [discriminate|].
    simpl in Hs. subst c. apply snprintf_first. exact Hlen.
  - destruct (sscanf_pool_subvol spec) as [[pool subvol]|]; [|discriminate].
    intros H. inversion H. apply (snprintf_first len "/" _ Hlen).
Qed.

(** A specification that begins with a slash is the path, when it fits the
    buffer; and every path that [parse_storage_path] returns begins with a
    slash. *)
Theorem parse_storage_path_absolute (spec : string) (len : Z) :
  2 <= len ->
  (first_char spec = "/"%char -> strlen spec <= len - 1 ->
   parse_storage_path spec len = Some spec)
  /\ (forall p, parse_storage_path spec len = Some p -> first_char p = "/"%char).
Proof.
  intros Hlen. split.
  - intros Hs Hfit. unfold parse_storage_path. rewrite Hs. simpl.
    rewrite snprintf_fits by exact Hfit. reflexivity.
  - intros p. apply parse_storage_path_slash. exact Hlen.
Qed.

Lemma parse_storage_path_absolute_witness :
  parse_storage_path "/tank/data" MAX_PATH_LEN = Some "/tank/data"
  /\ (forall p, parse_storage_path "/tank/data" MAX_PATH_LEN = Some p ->
                first_char p = "/"%char).
Proof.
  destruct (parse_storage_path_absolute "/tank/data" MAX_PATH_LEN) as [H1 H2].
  - unfold MAX_PATH_LEN. lia.
  - split; [apply H1; by_computation|exact H2].
Defined.

Lemma scan_not_colon_pool (pool rest : string) :
  lacks ":" pool = true ->
  forall n : nat, (String.length pool <= n)%nat ->
    scan_not_colon n (pool ++ String ":" rest)%string = (pool, String ":" rest).
Proof.
  induction pool as [|c pool IH]; intros Hc n Hn.
  - destruct n; reflexivity.
  - simpl in Hc. apply andb_true_iff in Hc as [Hc Hrest].
    apply negb_true_iff in Hc.
    destruct n as [|n]; [simpl in Hn; lia|].
    change (String c pool ++ String ":" rest)%string
      with (String c (pool ++ String ":" rest)%string).
    simpl. rewrite Hc, (IH Hrest n) by (simpl in Hn; lia). reflexivity.
Qed.

Lemma scan_word_all (w : string) :
  no_space w = true ->
  forall n : nat, (String.length w <= n)%nat -> scan_word n w = w.
Proof.
  induction w as [|c w IH]; intros Hw n Hn.
  - destruct n; reflexivity.
  - simpl in Hw. apply andb_true_iff in Hw as [Hc Hrest].
    apply negb_true_iff in Hc.
    destruct n as [|n]; [simpl in Hn; lia|].
    simpl. rewrite Hc, (IH Hrest n) by (simpl in Hn; lia). reflexivity.
Qed.

Lemma str_length_app (a b : string) :
  String.length (a ++ b)%string = (String.length a + String.length b)%nat.
Proof.
  induction a as [|c a IH]; [reflexivity|].
  change (String c a ++ b)%string with (String c (a ++ b)%string).
  simpl. rewrite IH. reflexivity.
Qed.

(** A specification [pool:subvol] that does not begin with a slash is the
    path [/pool/subvol]: for a pool name of 1 to 255 characters without a
    colon and a subvolume name of 1 to 511 characters without white
    space. *)
Theorem parse_storage_path_zfs (pool subvol : string) :
  pool <> "" -> first_char pool <> "/"%char -> lacks ":" pool = true ->
  (String.length pool <= 255)%nat ->
  subvol <> "" -> no_space subvol = true -> (String.length subvol <= 511)%nat ->
  parse_storage_path (pool ++ String ":" subvol)%string MAX_PATH_LEN
  = Some ("/" ++ pool ++ "/" ++ subvol)%string.
Proof.
  intros Hp Hslash Hcolon Hplen Hs Hspace Hslen.
  unfold parse_storage_path.
  destruct pool as [|c pool]; [contradiction|].
  change (String c pool ++ String ":" subvol)%string
    with (String c (pool ++ String ":" subvol)%string) at 1.
  simpl first_char. simpl in Hslash.
  destruct (Ascii.eqb_spec c "/") as [->|_]; [contradiction|].
  unfold sscanf_pool_subvol.
  rewrite (scan_not_colon_pool (String c pool) subvol Hcolon 255 Hplen).
  destruct subvol as [|x subvol]; [contradiction|].
  assert (Hskip : skip_spaces (String x subvol) = String x subvol).
  { simpl in Hspace. apply andb_true_iff in Hspace as [Hx _].
    apply negb_true_iff in Hx. simpl. rewrite Hx. reflexivity. }
  rewrite Hskip, (scan_word_all (String x subvol) Hspace 511 Hslen).
  rewrite snprintf_fits; [reflexivity|].
  unfold strlen, MAX_PATH_LEN. rewrite !str_length_app. simpl String.length.
  simpl in Hplen, Hslen. lia.
Qed.

Lemma parse_storage_path_zfs_witness :
  parse_storage_path ("local-zfs" ++ String ":" "subvol-111-disk-0")%string MAX_PATH_LEN
  = Some ("/" ++ "local-zfs" ++ "/" ++ "subvol-111-disk-0")%string.
Proof.
  apply parse_storage_path_zfs; try discriminate; try reflexivity; simpl; lia.
Defined.

Lemma strchr_before (s : string) (c : ascii) : strchr (before s c) c = None.
Proof.
  induction s as [|x s IH]; simpl; [reflexivity|].
  destruct (Ascii.eqb x c) eqn:Hx; [reflexivity|]. simpl. rewrite Hx. exact IH.
Qed.

Lemma strchr_rtrim (s : string) (c : ascii) :
  strchr s c = None -> strchr (rtrim s) c = None.
Proof.
  induction s as [|x s IH]; simpl; [reflexivity|].
  destruct (Ascii.eqb x c) eqn:Hx; [discriminate|]. intros H.
  specialize (IH H). destruct (rtrim s) as [|y r].
  - destruct (isspace x); simpl; [reflexivity|]. rewrite Hx. reflexivity.
  - simpl. rewrite Hx. exact IH.
Qed.

Lemma skip_spaces_first (s : string) :
  skip_spaces s = "" \/ isspace (first_char (skip_spaces s)) = false.
Proof.
  induction s as [|x s IH]; simpl; [left; reflexivity|].
  destruct (isspace x) eqn:Hx; [exact IH|]. right. exact Hx.
Qed.

Lemma before_first (s : string) (c : ascii) :
  before s c = "" \/ first_char (before s c) = first_char s.
Proof.
  destruct s as [|x s]; simpl; [left; reflexivity|].
  destruct (Ascii.eqb x c); [left|right]; reflexivity.
Qed.

Lemma rtrim_first (s : string) :
  rtrim s = "" \/ first_char (rtrim s) = first_char s.
Proof.
  destruct s as [|x s]; simpl; [left; reflexivity|].
  destruct (rtrim s); [destruct (isspace x); [left|right]|right]; reflexivity.
Qed.

(** The specification extracted from a configuration line is shorter than
    the buffer, holds no comma, and does not begin with white space. *)
Theorem extract_storage_spec_shape (line spec : string) (spec_len : Z) :
  extract_storage_spec line spec_len = Some spec ->
  strlen spec < spec_len
  /\ strchr spec "," = None
  /\ (spec = "" \/ isspace (first_char spec) = false).
Proof.
  unfold extract_storage_spec.
  destruct (strchr line ":") as [at_colon|]; [|discriminate].
  set (start := skip_spaces (str_drop 1 at_colon)).
  destruct (strchr start ",") as [tail|] eqn:Hcomma.
  - destruct (Z.leb_spec spec_len (strlen (before start ","))) as [|Hlt]; [discriminate|].
    intros Heq. inversion Heq; subst spec. split; [lia|]. split; [apply strchr_before|].
    destruct (before_first start ",") as [Hemp|Hf]; [left; exact Hemp|].
    rewrite Hf. destruct (skip_spaces_first (str_drop 1 at_colon)) as [H0|H0].
    + left. fold start in H0. rewrite H0. reflexivity.
    + right. exact H0.
  - destruct (Z.leb_spec spec_len (strlen (rtrim start))) as [|Hlt]; [discriminate|].
    intros Heq. inversion Heq; subst spec. split; [lia|].
    split; [apply strchr_rtrim; exact Hcomma|].
    destruct (rtrim_first start) as [Hemp|Hf]; [left; exact Hemp|].
    rewrite Hf. destruct (skip_spaces_first (str_drop 1 at_colon)) as [H0|H0].
    + left. fold start in H0. rewrite H0. reflexivity.
    + right. exact H0.
Qed.

Lemma extract_storage_spec_shape_witness :
  strlen "local-zfs:subvol-111-disk-0" < 512
  /\ strchr "local-zfs:subvol-111-disk-0" "," = None
  /\ ("local-zfs:subvol-111-disk-0" = ""
      \/ isspace (first_char "local-zfs:subvol-111-disk-0") = false).
Proof.
  apply (extract_storage_spec_shape "rootfs: local-zfs:subvol-111-disk-0,size=8G").
  reflexivity.
Defined.

(** ** The configuration reader, lines 344-419 *)

Lemma existsb_str_eqb (t : string) (l : list string) :
  existsb (str_eqb t) l = false -> ~ In t l.
Proof.
  intros H Hin.
  assert (Ht : existsb (str_eqb t) l = true).
  { apply existsb_exists. exists t. split; [exact Hin|].
    unfold str_eqb. apply bool_decide_eq_true. reflexivity. }
  congruence.
Qed.

Lemma parse_storage_path_fits (spec p : string) (len : Z) :
  parse_storage_path spec len = Some p -> snprintf len p = p.
Proof.
  unfold parse_storage_path.
  destruct (Ascii.eqb (first_char spec) "/").
  - intros H. inversion H. apply str_take_idem.
  - destruct (sscanf_pool_subvol spec) as [[pool subvol]|]; [|discriminate].
    intros H. inversion H. apply str_take_idem.
Qed.

Lemma read_config_lines_paths :
  forall (lines paths : list string) (cur : Z) (paths' : list string) (cur' : Z),
    read_config_lines lines paths cur = Some (paths', cur') ->
    List.NoDup paths -> Z.of_nat (length paths) <= MAX_PATHS ->
    Forall (fun p => first_char p = "/"%char) paths ->
    List.NoDup paths' /\ Z.of_nat (length paths') <= MAX_PATHS
    /\ Forall (fun p => first_char p = "/"%char) paths'.
Proof.
  induction lines as [|buf rest IH]; intros paths cur paths' cur' H Hnd Hlen Habs.
  - simpl in H. inversion H; subst. repeat split; assumption.
  - simpl in H.
    destruct (Ascii.eqb (first_char _) "[").
    { inversion H; subst. repeat split; assumption. }
    destruct (strncmp_eq _ "unprivileged:" 13); [eapply IH; eassumption|].
    destruct (strncmp_eq _ "rootfs:" 7 || _); [|eapply IH; eassumption].
    destruct (extract_storage_spec _ 512) as [spec|]; [|eapply IH; eassumption].
    destruct (Z.leb_spec MAX_PATHS (Z.of_nat (length paths))) as [|Hroom];
      [discriminate|].
    destruct (parse_storage_path spec MAX_PATH_LEN) as [tp|] eqn:Hparse;
      [|eapply IH; eassumption].
    destruct (existsb (str_eqb tp) paths) eqn:Hdup; [eapply IH; eassumption|].
    rewrite (parse_storage_path_fits spec tp MAX_PATH_LEN Hparse) in H.
    eapply IH; [exact H| | |].
    + apply List.NoDup_app; [exact Hnd|repeat constructor; intros []|].
      intros x Hx [Heq|[]]. subst x. exact (existsb_str_eqb tp paths Hdup Hx).
    + rewrite length_app. simpl. lia.
    + apply Forall_app. split; [exact Habs|]. constructor; [|constructor].
      apply (parse_storage_path_slash spec tp MAX_PATH_LEN); [|exact Hparse].
      unfold MAX_PATH_LEN. lia.
Qed.

Lemma read_config_lines_no_flag :
  forall (lines paths : list string) (cur : Z) (paths' : list string) (cur' : Z),
    Forall (fun buf => strncmp_eq (before (cstr buf) NL) "unprivileged:" 13 = false)
           lines ->
    read_config_lines lines paths cur = Some (paths', cur') -> cur' = cur.
Proof.
  induction lines as [|buf rest IH]; intros paths cur paths' cur' Hall H.
  - simpl in H. inversion H. reflexivity.
  - inversion Hall as [|? ? Hb Hrest]; subst. simpl in H. rewrite Hb in H.
    destruct (Ascii.eqb (first_char _) "["); [inversion H; reflexivity|].
    destruct (strncmp_eq _ "rootfs:" 7 || _); [|eapply IH; eassumption].
    destruct (extract_storage_spec _ 512) as [spec|]; [|eapply IH; eassumption].
    destruct (MAX_PATHS <=? _); [discriminate|].
    destruct (parse_storage_path spec MAX_PATH_LEN) as [tp|]; [|eapply IH; eassumption].
    destruct (existsb (str_eqb tp) paths); eapply IH; eassumption.
Qed.

(** What [read_config] hands to [main]: at most [MAX_PATHS] paths, no path
    twice, every path beginning with a slash. *)
Theorem read_config_result (E : env) (config_path : string) (s : state)
    (paths : list string) (cur : Z) :
  read_config E config_path s = Some (paths, cur) ->
  List.NoDup paths
  /\ Z.of_nat (length paths) <= MAX_PATHS
  /\ Forall (fun p => first_char p = "/"%char) paths.
Proof.
  unfold read_config. destruct (fopen_read_fails E config_path); [discriminate|].
  destruct (files s !! config_path) as [content|]; [|discriminate].
  intros H.
  apply (read_config_lines_paths _ [] (-1) paths cur H).
  - constructor.
  - unfold MAX_PATHS. simpl. lia.
  - constructor.
Qed.

Lemma read_config_result_witness :
  List.NoDup ["/ct"; "/mp"]
  /\ Z.of_nat (length ["/ct"; "/mp"]) <= MAX_PATHS
  /\ Forall (fun p => first_char p = "/"%char) ["/ct"; "/mp"].
Proof.
  apply (read_config_result MoreExamples.quiet Examples.conf_path
           Examples.two_roots ["/ct"; "/mp"] 0).
  by_computation.
Defined.

(** A configuration none of whose lines begins with the flag key is read
    with the flag -1, the value [main] takes for a privileged container. *)
Theorem read_config_flag_absent (E : env) (config_path : string) (s : state)
    (content : string) (paths : list string) (cur : Z) :
  files s !! config_path = Some content ->
  Forall (fun buf => strncmp_eq (before (cstr buf) NL) "unprivileged:" 13 = false)
         (fgets_all MAX_LINE content) ->
  read_config E config_path s = Some (paths, cur) ->
  cur = -1.
Proof.
  unfold read_config. intros Hc Hall.
  destruct (fopen_read_fails E config_path); [discriminate|].
  rewrite Hc. intros H.
  apply (read_config_lines_no_flag _ [] (-1) paths cur Hall H).
Qed.

Lemma read_config_flag_absent_witness : (-1 : Z) = -1.
Proof.
  apply (read_config_flag_absent MoreExamples.quiet Examples.conf_path
           MoreExamples.flagless MoreExamples.flagless_text ["/ct"] (-1)).
  - reflexivity.
  - vm_compute. repeat constructor.
  - by_computation.
Defined.

Lemma read_config_lines_primary_witness :
  read_config_lines (Examples.snap_primary ++ "[snapshot-x]" :: ["unprivileged: 1"])
    [] (-1)
  = read_config_lines Examples.snap_primary [] (-1).
Proof.
  apply read_config_lines_primary; [reflexivity|].
  repeat constructor.
Defined.

(** ** Writing the flag and reading it back, lines 344-485 *)
















(** ** [update_config], lines 422-485 *)






(** ** [main], lines 541-663 *)


Lemma main_cases (E : env) (argv : list string) (s : state) :
  (exists r : Z, main E argv s = (r, s))
  \/ exists (prog arg1 arg2 : string) (target offset : Z) (paths : list string) (cur : Z),
    argv = [prog; arg1; arg2]
    /\ 0 < atoi arg1
    /\ parse_mode arg2 = Some (target, offset)
    /\ is_container_running E (atoi arg1) = false
    /\ read_config E (config_path_of (atoi arg1)) s = Some (paths, cur)
    /\ paths <> []
    /\ (cur = -1 \/ cur <> target)
    /\ (first_char (stdin E) = "y"%char \/ first_char (stdin E) = "Y"%char)
    /\ geteuid E = 0
    /\ main E argv s
       = convert_and_commit E (config_path_of (atoi arg1)) paths target offset s.
Proof.
  unfold main.
  destruct argv as [|prog [|arg1 [|arg2 [|extra more]]]];
    try (left; eexists; reflexivity).
  destruct (Z.leb_spec (atoi arg1) 0) as [|Hpos];
    [left; eexists; reflexivity|].
  destruct (parse_mode arg2) as [[target offset]|] eqn:Hmode;
    [|left; eexists; reflexivity].
  destruct (is_container_running E (atoi arg1)) eqn:Hrun;
    [left; eexists; reflexivity|].
  destruct (read_config E (config_path_of (atoi arg1)) s) as [[paths cur]|] eqn:Hread;
    [|left; eexists; reflexivity].
  destruct (Z.eqb_spec (Z.of_nat (length paths)) 0) as [|Hsome];
    [left; eexists; reflexivity|].
  destruct (negb (cur =? -1) && (cur =? target)) eqn:Hstate;
    [left; eexists; reflexivity|].
  destruct (str_eqb (stdin E) ""
            || negb (Ascii.eqb (first_char (stdin E)) "y")
               && negb (Ascii.eqb (first_char (stdin E)) "Y")) eqn:Hans;
    [left; eexists; reflexivity|].
  destruct (Z.eqb_spec (geteuid E) 0) as [Hroot|];
    [|left; eexists; reflexivity].
  right. exists prog, arg1, arg2, target, offset, paths, cur.
  repeat split; try assumption; try reflexivity.
  - intros ->. apply Hsome. reflexivity.
  - apply andb_false_iff in Hstate as [Hm|Hne].
    + left. apply negb_false_iff in Hm. apply Z.eqb_eq in Hm. exact Hm.
    + right. apply Z.eqb_neq. exact Hne.
  - apply orb_false_iff in Hans as [_ Hyn].
    apply andb_false_iff in Hyn as [Hy|Hy]; apply negb_false_iff, Ascii.eqb_eq in Hy.
    + left. exact Hy.
    + right. exact Hy.
Qed.

(** [main] leaves the state as it found it unless every check before the
    conversion has passed: three arguments, a positive container number, a
    known mode, the container not running, a configuration read with at
    least one storage path and not already in the target state, the
    operator's yes, and root. *)
Theorem main_changes_only_past_checks (E : env) (argv : list string) (s : state) :
  snd (main E argv s) <> s ->
  exists (prog arg1 arg2 : string) (target offset : Z) (paths : list string) (cur : Z),
    argv = [prog; arg1; arg2]
    /\ 0 < atoi arg1
    /\ parse_mode arg2 = Some (target, offset)
    /\ is_container_running E (atoi arg1) = false
    /\ read_config E (config_path_of (atoi arg1)) s = Some (paths, cur)
    /\ paths <> []
    /\ (cur = -1 \/ cur <> target)
    /\ (first_char (stdin E) = "y"%char \/ first_char (stdin E) = "Y"%char)
    /\ geteuid E = 0
    /\ main E argv s
       = convert_and_commit E (config_path_of (atoi arg1)) paths target offset s.
Proof.
  intros H. destruct (main_cases E argv s) as [[r Hr]|Hpast]; [|exact Hpast].
  exfalso. apply H. rewrite Hr. reflexivity.
Qed.

Lemma main_changes_only_past_checks_witness :
  exists (prog arg1 arg2 : string) (target offset : Z) (paths : list string) (cur : Z),
    ["privconvert"; "111"; "unprivileged"] = [prog; arg1; arg2]
    /\ 0 < atoi arg1
    /\ parse_mode arg2 = Some (target, offset)
    /\ is_container_running (Examples.quiet Examples.two_roots_tree) (atoi arg1) = false
    /\ read_config (Examples.quiet Examples.two_roots_tree) (config_path_of (atoi arg1))
         Examples.two_roots = Some (paths, cur)
    /\ paths <> []
    /\ (cur = -1 \/ cur <> target)
    /\ (first_char (stdin (Examples.quiet Examples.two_roots_tree)) = "y"%char
        \/ first_char (stdin (Examples.quiet Examples.two_roots_tree)) = "Y"%char)
    /\ geteuid (Examples.quiet Examples.two_roots_tree) = 0
    /\ main (Examples.quiet Examples.two_roots_tree)
         ["privconvert"; "111"; "unprivileged"] Examples.two_roots
       = convert_and_commit (Examples.quiet Examples.two_roots_tree)
           (config_path_of (atoi arg1)) paths target offset Examples.two_roots.
Proof.
  apply (main_changes_only_past_checks (Examples.quiet Examples.two_roots_tree)
           ["privconvert"; "111"; "unprivileged"] Examples.two_roots).
  intros H. apply (f_equal (fun st => length (trace st))) in H.
  vm_compute in H. discriminate H.
Defined.




